(** * failerr: failure values as plain tagged objects

    A shallow embedding of [src/failerr.ts] and of the fragment of the
    ECMAScript object model that the module relies on:
    [Object.prototype.toString], the [in] operator, [Symbol()],
    [Object.create], [Object.freeze], object literals and parameter
    defaults.  Objects live in a heap indexed by locations; a value
    of reference type is a location, so reference identity is equality
    of locations.  Objects are ordinary objects and arrays with data and
    accessor properties.  Two things are outside the model, and outside
    every statement below: proxy objects, and what the body of a getter or
    setter does to the heap (only what it returns or throws is kept). *)

From Stdlib Require Import ZArith String.
From stdpp Require Import base option gmap strings list fin_maps.

Open Scope string_scope.
Open Scope nat_scope.

(** ** Values, property keys and objects *)

Abbreviation loc := nat (only parsing).

(** A symbol is one of the well-known symbols of the language or was
    created by a call of [Symbol()]; the latter are numbered in order of
    creation. *)
Inductive symbol :=
| WellKnown (name : string)
| Created (id : nat).

#[global] Instance symbol_eq_dec : EqDecision symbol.
Proof. solve_decision. Defined.

#[global] Instance symbol_countable : Countable symbol.
Proof.
  refine (inj_countable'
    (fun k => match k with WellKnown s => inl s | Created i => inr i end)
    (fun x => match x with inl s => WellKnown s | inr i => Created i end) _).
  intros []; reflexivity.
Defined.

(** A property key is a string or a symbol. *)
Inductive pkey :=
| KStr (s : string)
| KSym (s : symbol).

#[global] Instance pkey_eq_dec : EqDecision pkey.
Proof. solve_decision. Defined.

#[global] Instance pkey_countable : Countable pkey.
Proof.
  refine (inj_countable'
    (fun k => match k with KStr s => inl s | KSym s => inr s end)
    (fun x => match x with inl s => KStr s | inr s => KSym s end) _).
  intros []; reflexivity.
Defined.

(** Language values.  Numbers and bigints are carried as opaque payloads:
    the module never computes on them. *)
Inductive value :=
| VUndefined
| VNull
| VBool (b : bool)
| VNumber (n : Z)
| VBigInt (n : Z)
| VString (s : string)
| VSymbol (s : symbol)
| VRef (l : loc).

#[global] Instance value_eq_dec : EqDecision value.
Proof. solve_decision. Defined.

Definition is_primitive (v : value) : bool :=
  match v with
  | VBool _ | VNumber _ | VBigInt _ | VString _ | VSymbol _ => true
  | _ => false
  end.

Definition is_absent (v : value) : bool :=
  match v with
  | VUndefined | VNull => true
  | _ => false
  end.

(** What a call can raise. *)
Inductive exn :=
| TypeError
| Thrown (v : value).

(** Result of evaluating an expression that may throw.  [Stuck] is not a
    behaviour of the language: it marks a dangling location or an exhausted
    recursion budget on a prototype chain. *)
Inductive outcome (A : Type) :=
| Ok (a : A)
| Throw (e : exn)
| Stuck.
Arguments Ok {A} a.
Arguments Throw {A} e.
Arguments Stuck {A}.

#[global] Instance outcome_ret : MRet outcome := fun A a => Ok a.
#[global] Instance outcome_fmap : FMap outcome := fun A B f m =>
  match m with
  | Ok a => Ok (f a)
  | Throw e => Throw e
  | Stuck => Stuck
  end.
#[global] Instance outcome_bind : MBind outcome := fun A B f m =>
  match m with
  | Ok a => f a
  | Throw e => Throw e
  | Stuck => Stuck
  end.

(** Accessor bodies are user code; they are kept as what they return or
    throw to the caller.  What they do to the heap is not modelled. *)
Inductive getter :=
| GetAbsent
| GetReturns (v : value)
| GetThrows (v : value).

Inductive setter :=
| SetAbsent
| SetAccepts
| SetThrows (v : value).

(** Property descriptors. *)
Inductive prop :=
| PData (v : value) (writable enumerable configurable : bool)
| PAccessor (get : getter) (set : setter) (enumerable configurable : bool).

#[global] Instance getter_eq_dec : EqDecision getter.
Proof. solve_decision. Defined.
#[global] Instance setter_eq_dec : EqDecision setter.
Proof. solve_decision. Defined.
#[global] Instance prop_eq_dec : EqDecision prop.
Proof. solve_decision. Defined.

(** The internal slots that [Object.prototype.toString] inspects. *)
Inductive kind :=
| KOrdinary
| KArray
| KArguments
| KFunction
| KError
| KBoolean
| KNumber
| KString
| KDate
| KRegExp.

#[global] Instance kind_eq_dec : EqDecision kind.
Proof. solve_decision. Defined.

Record object := {
  okind : kind;
  proto : option loc;
  extensible : bool;
  props : gmap pkey prop
}.

(** The intrinsic prototypes of a realm. *)
Record realm := {
  object_prototype : loc;
  array_prototype : loc;
  boolean_prototype : loc;
  number_prototype : loc;
  string_prototype : loc;
  symbol_prototype : loc;
  bigint_prototype : loc
}.

(** Program state: the heap, the descriptions of the symbols created so
    far (in order of creation) and the realm. *)
Record state := {
  heap : gmap loc object;
  symbols : list string;
  intrinsics : realm
}.

Definition with_heap (f : gmap loc object -> gmap loc object) (st : state) : state :=
  {| heap := f (heap st); symbols := symbols st; intrinsics := intrinsics st |}.

(** The well-known symbol [Symbol.toStringTag], as a property key. *)
Definition toStringTag : pkey := KSym (WellKnown "toStringTag").

(** ** Host operations *)

(** [Symbol(description)] *)
Definition symbol_new (description : string) (st : state) : symbol * state :=
  (Created (length (symbols st)),
   {| heap := heap st; symbols := symbols st ++ [description];
      intrinsics := intrinsics st |}).

(** Allocation of a new object at an unused location. *)
Definition alloc (o : object) (st : state) : value * state :=
  let l := fresh (dom (heap st)) in
  (VRef l, with_heap (insert l o) st).

(** [Object.create(p)] for [p] an object or [null]. *)
Definition object_create (p : option loc) (st : state) : value * state :=
  alloc {| okind := KOrdinary; proto := p; extensible := true; props := ∅ |} st.

Definition freeze_prop (p : prop) : prop :=
  match p with
  | PData v _ e _ => PData v false e false
  | PAccessor g s e _ => PAccessor g s e false
  end.

Definition freeze_object (o : object) : object :=
  {| okind := okind o; proto := proto o; extensible := false;
     props := freeze_prop <$> props o |}.

(** [Object.freeze(v)]: returns its argument; an object is made
    non-extensible and its properties non-configurable and read-only. *)
Definition object_freeze (v : value) (st : state) : value * state :=
  match v with
  | VRef l => (v, with_heap (alter freeze_object l) st)
  | _ => (v, st)
  end.

Definition prop_frozen (p : prop) : bool :=
  match p with
  | PData _ w _ c => negb w && negb c
  | PAccessor _ _ _ c => negb c
  end.

(** [Object.isFrozen] on an object. *)
Definition is_frozen (o : object) : bool :=
  negb (extensible o) && bool_decide (map_Forall (fun _ p => prop_frozen p = true) (props o)).

(** An object literal [{ k1: v1, ..., kn: vn }]: a new ordinary object
    whose prototype is [Object.prototype], with one writable, enumerable,
    configurable data property per field, later fields overriding. *)
Definition literal_props (fields : list (pkey * value)) : gmap pkey prop :=
  foldl (fun m kv => <[kv.1 := PData kv.2 true true true]> m) ∅ fields.

Definition object_literal (fields : list (pkey * value)) (st : state) : value * state :=
  alloc {| okind := KOrdinary;
           proto := Some (object_prototype (intrinsics st));
           extensible := true;
           props := literal_props fields |} st.

(** [HasProperty]: own property, else the prototype's. *)
Fixpoint has_property (fuel : nat) (h : gmap loc object) (l : loc) (k : pkey) : outcome bool :=
  match fuel with
  | 0 => Stuck
  | S fuel =>
    match h !! l with
    | None => Stuck
    | Some o =>
      match props o !! k with
      | Some _ => Ok true
      | None =>
        match proto o with
        | None => Ok false
        | Some p => has_property fuel h p k
        end
      end
    end
  end.

Definition call_getter (g : getter) : outcome value :=
  match g with
  | GetAbsent => Ok VUndefined
  | GetReturns v => Ok v
  | GetThrows v => Throw (Thrown v)
  end.

(** [Get]: own property (calling its getter if it is an accessor), else
    the prototype's, else [undefined]. *)
Fixpoint get (fuel : nat) (h : gmap loc object) (l : loc) (k : pkey) : outcome value :=
  match fuel with
  | 0 => Stuck
  | S fuel =>
    match h !! l with
    | None => Stuck
    | Some o =>
      match props o !! k with
      | Some (PData v _ _ _) => Ok v
      | Some (PAccessor g _ _ _) => call_getter g
      | None =>
        match proto o with
        | None => Ok VUndefined
        | Some p => get fuel h p k
        end
      end
    end
  end.

(** The [in] operator: a [TypeError] unless the right operand is an
    object. *)
Definition js_in (fuel : nat) (st : state) (k : pkey) (v : value) : outcome bool :=
  match v with
  | VRef l => has_property fuel (heap st) l k
  | _ => Throw TypeError
  end.

Definition builtin_tag (k : kind) : string :=
  match k with
  | KOrdinary => "Object"
  | KArray => "Array"
  | KArguments => "Arguments"
  | KFunction => "Function"
  | KError => "Error"
  | KBoolean => "Boolean"
  | KNumber => "Number"
  | KString => "String"
  | KDate => "Date"
  | KRegExp => "RegExp"
  end.

Definition tagged (builtin : string) (tag : value) : string :=
  "[object " +:+ (match tag with VString s => s | _ => builtin end) +:+ "]".

(** [Object.prototype.toString.call(this)].  A primitive is first wrapped;
    the wrapper has no symbol-keyed own property, so the lookup of
    [Symbol.toStringTag] starts at the wrapper's prototype. *)
Definition object_prototype_toString (fuel : nat) (st : state) (this : value) : outcome string :=
  let r := intrinsics st in
  match this with
  | VUndefined => Ok "[object Undefined]"
  | VNull => Ok "[object Null]"
  | VBool _ => tagged "Boolean" <$> get fuel (heap st) (boolean_prototype r) toStringTag
  | VNumber _ => tagged "Number" <$> get fuel (heap st) (number_prototype r) toStringTag
  | VString _ => tagged "String" <$> get fuel (heap st) (string_prototype r) toStringTag
  | VSymbol _ => tagged "Object" <$> get fuel (heap st) (symbol_prototype r) toStringTag
  | VBigInt _ => tagged "Object" <$> get fuel (heap st) (bigint_prototype r) toStringTag
  | VRef l =>
    match heap st !! l with
    | None => Stuck
    | Some o => tagged (builtin_tag (okind o)) <$> get fuel (heap st) l toStringTag
    end
  end.

(** Replacing the property table of an object. *)
Definition with_props (f : gmap pkey prop -> gmap pkey prop) (o : object) : object :=
  {| okind := okind o; proto := proto o; extensible := extensible o;
     props := f (props o) |}.

(** Last step of an assignment: write the value on the receiver itself.
    An own accessor or read-only property refuses, and so does a
    non-extensible receiver that lacks the property. *)
Definition set_on_receiver (h : gmap loc object) (recv : loc) (k : pkey) (v : value)
  : outcome (bool * gmap loc object) :=
  match h !! recv with
  | None => Stuck
  | Some o =>
    match props o !! k with
    | Some (PAccessor _ _ _ _) => Ok (false, h)
    | Some (PData _ w e c) =>
      if w then Ok (true, <[recv := with_props (insert k (PData v w e c)) o]> h)
      else Ok (false, h)
    | None =>
      if extensible o
      then Ok (true, <[recv := with_props (insert k (PData v true true true)) o]> h)
      else Ok (false, h)
    end
  end.

Definition call_setter (s : setter) (h : gmap loc object) : outcome (bool * gmap loc object) :=
  match s with
  | SetAbsent => Ok (false, h)
  | SetAccepts => Ok (true, h)
  | SetThrows e => Throw (Thrown e)
  end.

(** [OrdinarySet]: the property is searched along the prototype chain of
    [l]; a data property found there (or none at all) leads to a write on
    the receiver, an accessor to a call of its setter. *)
Fixpoint ordinary_set (fuel : nat) (h : gmap loc object) (l recv : loc) (k : pkey) (v : value)
  : outcome (bool * gmap loc object) :=
  match fuel with
  | 0 => Stuck
  | S fuel =>
    match h !! l with
    | None => Stuck
    | Some o =>
      match props o !! k with
      | Some (PData _ w _ _) => if w then set_on_receiver h recv k v else Ok (false, h)
      | Some (PAccessor _ s _ _) => call_setter s h
      | None =>
        match proto o with
        | Some p => ordinary_set fuel h p recv k v
        | None => set_on_receiver h recv k v
        end
      end
    end
  end.

(** The assignment [o[k] = v] on an object [o]; the boolean tells whether
    it took effect. *)
Definition js_set (fuel : nat) (st : state) (l : loc) (k : pkey) (v : value) : outcome (bool * state) :=
  r ← ordinary_set fuel (heap st) l l k v;
  mret (r.1, with_heap (fun _ => r.2) st).

(** [delete o[k]] on an object [o]. *)
Definition js_delete (st : state) (l : loc) (k : pkey) : outcome (bool * state) :=
  match heap st !! l with
  | None => Stuck
  | Some o =>
    match props o !! k with
    | None => Ok (true, st)
    | Some (PData _ _ _ c) | Some (PAccessor _ _ _ c) =>
      if c then Ok (true, with_heap (insert l (with_props (delete k) o)) st)
      else Ok (false, st)
    end
  end.

(** ** The module [failerr.ts] *)

(** [const toString = Object.prototype.toString;] *)
Definition toString := object_prototype_toString.

(** [toString.call(item) === '[object Object]'] *)
Definition isObject (fuel : nat) (st : state) (item : value) : outcome bool :=
  s ← toString fuel st item;
  mret (String.eqb s "[object Object]").

(** What one evaluation of the module body binds: the symbol [__fail__]
    and the default data record [empty]. *)
Record instance := {
  __fail__ : symbol;
  empty : value
}.

(** Evaluation of the module body:
    [const __fail__ = Symbol('fail');]
    [const empty = Object.freeze(Object.create(null));] *)
Definition init (st : state) : instance * state :=
  let '(s, st) := symbol_new "fail" st in
  let '(o, st) := object_create None st in
  let '(e, st) := object_freeze o st in
  ({| __fail__ := s; empty := e |}, st).

(** The [i]-th actual argument of a call; a missing one reads as
    [undefined]. *)
Definition arg (i : nat) (args : list value) : value :=
  nth i args VUndefined.

(** A parameter default applies when the argument is [undefined], passed
    or missing. *)
Definition or_default (a dflt : value) : value :=
  match a with
  | VUndefined => dflt
  | _ => a
  end.

(** [mkFail = (message, data = empty) => ({ [__fail__]: true, message, data })] *)
Definition mkFail (M : instance) (args : list value) (st : state) : value * state :=
  let message := arg 0 args in
  let data := or_default (arg 1 args) (empty M) in
  object_literal [(KSym (__fail__ M), VBool true);
                  (KStr "message", message);
                  (KStr "data", data)] st.

(** [isFail = (val) => isObject(val) && __fail__ in val] *)
Definition isFail (M : instance) (fuel : nat) (st : state) (val : value) : outcome bool :=
  b ← isObject fuel st val;
  if (b : bool) then js_in fuel st (KSym (__fail__ M)) val else mret false.

(** ** A freshly started realm *)

Definition ordinary (p : option loc) (ps : gmap pkey prop) : object :=
  {| okind := KOrdinary; proto := p; extensible := true; props := ps |}.

Definition std_realm : realm :=
  {| object_prototype := 0; array_prototype := 1; boolean_prototype := 2;
     number_prototype := 3; string_prototype := 4; symbol_prototype := 5;
     bigint_prototype := 6 |}.

Definition tag_prop (s : string) : gmap pkey prop :=
  {[ toStringTag := PData (VString s) false false true ]}.

Definition std_heap : gmap loc object :=
  <[0 := ordinary None ∅]>
  (<[1 := {| okind := KArray; proto := Some 0; extensible := true; props := ∅ |}]>
  (<[2 := {| okind := KBoolean; proto := Some 0; extensible := true; props := ∅ |}]>
  (<[3 := {| okind := KNumber; proto := Some 0; extensible := true; props := ∅ |}]>
  (<[4 := {| okind := KString; proto := Some 0; extensible := true; props := ∅ |}]>
  (<[5 := ordinary (Some 0) (tag_prop "Symbol")]>
  (<[6 := ordinary (Some 0) (tag_prop "BigInt")]> ∅)))))).

Definition std_state : state :=
  {| heap := std_heap; symbols := []; intrinsics := std_realm |}.

(** ** Example states *)

(** The module loaded into a freshly started realm. *)
Definition loaded : instance * state := init std_state.

(** The record [{ message: 'not a failure', data: null }]. *)
Definition lookalike : value * state :=
  object_literal [(KStr "message", VString "not a failure"); (KStr "data", VNull)]
                 loaded.2.

(** A record whose only field is keyed by the module's symbol (which
    [Object.getOwnPropertySymbols] hands out), holding [false]. *)
Definition forged : value * state :=
  object_literal [(KSym (__fail__ loaded.1), VBool false)] loaded.2.

(** [{ get [Symbol.toStringTag]() { throw 'boom' } }] *)
Definition trap : value * state :=
  alloc (ordinary (Some (object_prototype std_realm))
           {[ toStringTag := PAccessor (GetThrows (VString "boom")) SetAbsent true true ]})
        loaded.2.

(** [const o = {}; o.self = o;] *)
Definition cyclic : value * state :=
  alloc (ordinary (Some (object_prototype std_realm))
           {[ KStr "self" := PData (VRef (fresh (dom (heap loaded.2)))) true true true ]})
        loaded.2.

(** [[1, 2, 3]] *)
Definition triple : value * state :=
  alloc {| okind := KArray; proto := Some (array_prototype std_realm); extensible := true;
           props := {[ KStr "0" := PData (VNumber 1) true true true;
                       KStr "1" := PData (VNumber 2) true true true;
                       KStr "2" := PData (VNumber 3) true true true;
                       KStr "length" := PData (VNumber 3) true false false ]} |}
        loaded.2.

(** The module loaded a second time into the same realm. *)
Definition reloaded : instance * state := init loaded.2.

(** [const f = mkFail('original', null);] and then
    [f.message = 'changed';] *)
Definition original : value * state :=
  mkFail loaded.1 [VString "original"; VNull] loaded.2.

Definition overwritten : state :=
  match js_set 1 original.2 (fresh (dom (heap loaded.2))) (KStr "message") (VString "changed") with
  | Ok r => r.2
  | _ => original.2
  end.

(** [Object.create(f)] for the failure value [f] of [original]. *)
Definition heir : value * state :=
  object_create (Some (fresh (dom (heap loaded.2)))) original.2.

(** An array onto which the module's symbol was copied, as
    [Object.assign([], f)] does. *)
Definition marked_array : value * state :=
  alloc {| okind := KArray; proto := Some (array_prototype std_realm); extensible := true;
           props := {[ KSym (__fail__ loaded.1) := PData (VBool true) true true true;
                       KStr "length" := PData (VNumber 0) true false false ]} |}
        loaded.2.

(** The realm after [Number.prototype[Symbol.toStringTag] = 'Object']. *)
Definition retagged : state :=
  with_heap (insert (number_prototype std_realm)
               {| okind := KNumber; proto := Some (object_prototype std_realm);
                  extensible := true; props := tag_prop "Object" |})
            loaded.2.

(** ** Conditions on the realm *)

(** [Object.prototype] as the language sets it up, as far as [toString]
    can tell: it ends every prototype chain and defines no
    [Symbol.toStringTag]. *)
Definition root_ok (st : state) : bool :=
  match heap st !! object_prototype (intrinsics st) with
  | Some o => bool_decide (proto o = None) && bool_decide (props o !! toStringTag = None)
  | None => false
  end.

(** The prototype [l] of a kind of primitive, or of arrays, for which
    [builtin] is the tag that [toString] falls back on: it inherits from
    [Object.prototype], and with its own [Symbol.toStringTag] (a data
    property, if there is one) the tag is not [Object]. *)
Definition wrapper_ok (st : state) (builtin : string) (l : loc) : bool :=
  match heap st !! l with
  | Some o =>
    bool_decide (proto o = Some (object_prototype (intrinsics st))) &&
    match props o !! toStringTag with
    | None => negb (String.eqb (tagged builtin VUndefined) "[object Object]")
    | Some (PData v _ _ _) => negb (String.eqb (tagged builtin v) "[object Object]")
    | Some (PAccessor _ _ _ _) => false
    end
  | None => false
  end.

(** The realm as the language sets it up, as far as [toString] can tell. *)
Definition pristine (st : state) : bool :=
  let r := intrinsics st in
  root_ok st
  && wrapper_ok st "Array" (array_prototype r)
  && wrapper_ok st "Boolean" (boolean_prototype r)
  && wrapper_ok st "Number" (number_prototype r)
  && wrapper_ok st "String" (string_prototype r)
  && wrapper_ok st "Object" (symbol_prototype r)
  && wrapper_ok st "Object" (bigint_prototype r).

(** Every symbol that keys a property was created earlier. *)
Definition key_registered (n : nat) (k : pkey) : Prop :=
  match k with
  | KSym (Created i) => i < n
  | _ => True
  end.

Definition symbols_registered (st : state) : Prop :=
  map_Forall (fun _ o => map_Forall (fun k _ => key_registered (length (symbols st)) k) (props o))
             (heap st).

#[global] Instance key_registered_dec n k : Decision (key_registered n k).
Proof. destruct k as [|[]]; simpl; apply _. Defined.

#[global] Instance symbols_registered_dec st : Decision (symbols_registered st).
Proof. unfold symbols_registered. apply _. Defined.

(** The object at [l] has no own property keyed [k]. *)
Definition lacks (k : pkey) (st : state) (l : loc) : bool :=
  match heap st !! l with
  | Some o => bool_decide (props o !! k = None)
  | None => false
  end.

(** The property keyed [k] of [o], if there is one, is a data property. *)
Definition data_only (k : pkey) (o : object) : Prop :=
  ∀ g s e c, props o !! k ≠ Some (PAccessor g s e c).

(** The object at [l] has no accessor property keyed [k]: an assignment
    that looks [k] up there runs no setter. *)
Definition accessor_free (k : pkey) (st : state) (l : loc) : bool :=
  match heap st !! l with
  | Some o =>
    match props o !! k with
    | Some (PAccessor _ _ _ _) => false
    | _ => true
    end
  | None => false
  end.

(** A plain object: ordinary, directly below [Object.prototype], without a
    [Symbol.toStringTag] of its own.  Every object literal with string
    keys is one. *)
Definition plain (st : state) (o : object) : bool :=
  bool_decide (okind o = KOrdinary)
  && bool_decide (proto o = Some (object_prototype (intrinsics st)))
  && bool_decide (props o !! toStringTag = None).

(** An array as an array literal builds it. *)
Definition plain_array (st : state) (v : value) : bool :=
  match v with
  | VRef l =>
    match heap st !! l with
    | Some o =>
      bool_decide (okind o = KArray)
      && bool_decide (proto o = Some (array_prototype (intrinsics st)))
      && bool_decide (props o !! toStringTag = None)
    | None => false
    end
  | _ => false
  end.

(** The prototype chain of [l] ends within [n] steps and no object on it
    has a [Symbol.toStringTag] accessor whose getter throws. *)
Fixpoint tame (n : nat) (h : gmap loc object) (l : loc) : bool :=
  match n with
  | 0 => false
  | S n =>
    match h !! l with
    | None => false
    | Some o =>
      match props o !! toStringTag with
      | Some (PAccessor (GetThrows _) _ _ _) => false
      | _ => match proto o with None => true | Some p => tame n h p end
      end
    end
  end.

(** A value on which [isFail] is sure to answer: anything but an object
    whose prototype chain is not tame within [n] steps. *)
Definition tame_value (n : nat) (st : state) (v : value) : bool :=
  match v with
  | VRef l => tame n (heap st) l
  | _ => true
  end.

(** The object that [mkFail] builds for a message and a data value. *)
Definition fail_object (M : instance) (st : state) (message data : value) : object :=
  {| okind := KOrdinary;
     proto := Some (object_prototype (intrinsics st));
     extensible := true;
     props := literal_props [(KSym (__fail__ M), VBool true);
                             (KStr "message", message);
                             (KStr "data", data)] |}.

(** [v] is a reference to an object that is as [mkFail] built it. *)
Definition fail_record (M : instance) (st : state) (v : value) : Prop :=
  ∃ l message data, v = VRef l ∧ heap st !! l = Some (fail_object M st message data).

(** The default data record: no prototype, no property, frozen. *)
Definition frozen_empty : object :=
  {| okind := KOrdinary; proto := None; extensible := false; props := ∅ |}.

(** The default record of [M] is allocated, empty and frozen. *)
Definition default_intact (M : instance) (st : state) : Prop :=
  ∃ e, empty M = VRef e ∧ heap st !! e = Some frozen_empty.

(** ** What the program and its callers can do to the state *)

(** One step of the program or of the code around it: a call of [mkFail],
    an object literal, [Object.create], [Symbol()], an assignment to a
    property, a [delete], [Object.freeze]. *)

Inductive step (M : instance) : state -> state -> Prop :=
| step_mkFail args st v st' :
    mkFail M args st = (v, st') -> step M st st'
| step_literal fields st v st' :
    object_literal fields st = (v, st') -> step M st st'
| step_create p st v st' :
    object_create p st = (v, st') -> step M st st'
| step_symbol d st s st' :
    symbol_new d st = (s, st') -> step M st st'
| step_set fuel st l k v b st' :
    js_set fuel st l k v = Ok (b, st') -> step M st st'
| step_delete st l k b st' :
    js_delete st l k = Ok (b, st') -> step M st st'
| step_freeze v st v' st' :
    object_freeze v st = (v', st') -> step M st st'.

(** ** Basic facts about the host operations *)

Section host_facts.
Implicit Types (st : state) (h : gmap loc object) (o : object) (l : loc)
  (k : pkey) (v : value) (fuel : nat).

Lemma alloc_spec o st v st' :
  alloc o st = (v, st') ->
  ∃ l, v = VRef l ∧ heap st !! l = None ∧ heap st' = <[l := o]> (heap st)
       ∧ symbols st' = symbols st ∧ intrinsics st' = intrinsics st.
Proof.
  unfold alloc. intros [= <- <-].
  exists (fresh (dom (heap st))). repeat split.
  apply not_elem_of_dom, is_fresh.
Qed.

Lemma alloc_extends o st v st' :
  alloc o st = (v, st') -> heap st ⊆ heap st'.
Proof.
  intros (l & _ & Hl & -> & _)%alloc_spec. by apply insert_subseteq.
Qed.

Lemma object_literal_spec fields st v st' :
  object_literal fields st = (v, st') ->
  ∃ l, v = VRef l ∧ heap st !! l = None
       ∧ heap st' = <[l := {| okind := KOrdinary;
                              proto := Some (object_prototype (intrinsics st));
                              extensible := true;
                              props := literal_props fields |}]> (heap st)
       ∧ symbols st' = symbols st ∧ intrinsics st' = intrinsics st.
Proof. apply alloc_spec. Qed.

Lemma has_property_own fuel h l o k p :
  h !! l = Some o -> props o !! k = Some p -> has_property (S fuel) h l k = Ok true.
Proof. intros Hl Hk. simpl. by rewrite Hl, Hk. Qed.

Lemma has_property_step fuel h l o k q :
  h !! l = Some o -> props o !! k = None -> proto o = Some q ->
  has_property (S fuel) h l k = has_property fuel h q k.
Proof. intros Hl Hk Hq. simpl. by rewrite Hl, Hk, Hq. Qed.

Lemma has_property_end fuel h l o k :
  h !! l = Some o -> props o !! k = None -> proto o = None ->
  has_property (S fuel) h l k = Ok false.
Proof. intros Hl Hk Hq. simpl. by rewrite Hl, Hk, Hq. Qed.

Lemma get_data fuel h l o k v w e c :
  h !! l = Some o -> props o !! k = Some (PData v w e c) -> get (S fuel) h l k = Ok v.
Proof. intros Hl Hk. simpl. by rewrite Hl, Hk. Qed.

Lemma get_step fuel h l o k q :
  h !! l = Some o -> props o !! k = None -> proto o = Some q ->
  get (S fuel) h l k = get fuel h q k.
Proof. intros Hl Hk Hq. simpl. by rewrite Hl, Hk, Hq. Qed.

Lemma get_end fuel h l o k :
  h !! l = Some o -> props o !! k = None -> proto o = None ->
  get (S fuel) h l k = Ok VUndefined.
Proof. intros Hl Hk Hq. simpl. by rewrite Hl, Hk, Hq. Qed.

(** More fuel never changes a definite answer. *)
Lemma has_property_mono fuel (fuel' : nat) h l k r :
  fuel ≤ fuel' -> has_property fuel h l k = r -> r ≠ Stuck ->
  has_property fuel' h l k = r.
Proof.
  revert fuel' l. induction fuel as [|fuel IH]; intros fuel' l Hle Hr Hns.
  - simpl in Hr. congruence.
  - destruct fuel' as [|fuel']; [lia|]. simpl in *.
    destruct (h !! l) as [o|]; [|done].
    destruct (props o !! k); [done|].
    destruct (proto o); [|done]. apply IH; [lia|done..].
Qed.

Lemma get_mono fuel (fuel' : nat) h l k r :
  fuel ≤ fuel' -> get fuel h l k = r -> r ≠ Stuck -> get fuel' h l k = r.
Proof.
  revert fuel' l. induction fuel as [|fuel IH]; intros fuel' l Hle Hr Hns.
  - simpl in Hr. congruence.
  - destruct fuel' as [|fuel']; [lia|]. simpl in *.
    destruct (h !! l) as [o|]; [|done].
    destruct (props o !! k); [done|].
    destruct (proto o); [|done]. apply IH; [lia|done..].
Qed.

Lemma root_ok_spec st :
  root_ok st = true ->
  ∃ o, heap st !! object_prototype (intrinsics st) = Some o
       ∧ proto o = None ∧ props o !! toStringTag = None.
Proof.
  unfold root_ok. destruct (heap st !! _) as [o|]; [|done].
  intros [H1 H2]%andb_prop. exists o.
  apply bool_decide_eq_true in H1, H2. done.
Qed.

Lemma root_ok_extends st st' :
  heap st ⊆ heap st' -> intrinsics st' = intrinsics st ->
  root_ok st = true -> root_ok st' = true.
Proof.
  intros Hsub Hr (o & Ho & Hp & Ht)%root_ok_spec.
  unfold root_ok. rewrite Hr.
  rewrite (lookup_weaken _ _ _ _ Ho Hsub).
  by rewrite !bool_decide_eq_true_2.
Qed.

Lemma wrapper_ok_extends st st' builtin l :
  heap st ⊆ heap st' -> intrinsics st' = intrinsics st ->
  wrapper_ok st builtin l = true -> wrapper_ok st' builtin l = true.
Proof.
  intros Hsub Hr. unfold wrapper_ok.
  destruct (heap st !! l) as [o|] eqn:Ho; [|done].
  by rewrite (lookup_weaken _ _ _ _ Ho Hsub), Hr.
Qed.

Lemma pristine_extends st st' :
  heap st ⊆ heap st' -> intrinsics st' = intrinsics st ->
  pristine st = true -> pristine st' = true.
Proof.
  intros Hsub Hr. unfold pristine. rewrite Hr.
  rewrite !andb_true_iff.
  intros [[[[[[H0 H1] H2] H3] H4] H5] H6].
  repeat split; eauto using root_ok_extends, wrapper_ok_extends.
Qed.

Lemma pristine_root st : pristine st = true -> root_ok st = true.
Proof. unfold pristine. rewrite !andb_true_iff. tauto. Qed.

(** The tag lookup on [Object.prototype] finds nothing. *)
Lemma get_tag_root st fuel :
  root_ok st = true -> 1 ≤ fuel ->
  get fuel (heap st) (object_prototype (intrinsics st)) toStringTag = Ok VUndefined.
Proof.
  intros (o & Ho & Hp & Ht)%root_ok_spec Hf.
  destruct fuel as [|fuel]; [lia|]. eauto using get_end.
Qed.

(** On an object directly below [Object.prototype] the tag is read from
    the object's own property, if it has one, and is [undefined] if not. *)
Lemma get_tag_below st fuel l o :
  root_ok st = true -> 2 ≤ fuel ->
  heap st !! l = Some o -> proto o = Some (object_prototype (intrinsics st)) ->
  get fuel (heap st) l toStringTag =
    match props o !! toStringTag with
    | Some (PData v _ _ _) => Ok v
    | Some (PAccessor g _ _ _) => call_getter g
    | None => Ok VUndefined
    end.
Proof.
  intros Hroot Hf Ho Hp. destruct fuel as [|fuel]; [lia|].
  simpl. rewrite Ho, Hp. destruct (props o !! toStringTag) as [[]|]; try done.
  apply get_tag_root; [done|lia].
Qed.

(** [toString] on a plain object. *)
Lemma toString_plain st fuel l o :
  root_ok st = true -> 2 ≤ fuel ->
  heap st !! l = Some o -> plain st o = true ->
  toString fuel st (VRef l) = Ok "[object Object]".
Proof.
  intros Hroot Hf Ho. unfold plain. rewrite !andb_true_iff, !bool_decide_eq_true.
  intros [[Hk Hp] Ht]. unfold toString, object_prototype_toString.
  rewrite Ho, (get_tag_below st fuel l o), Ht, Hk by done. done.
Qed.
End host_facts.

(** ** Basic facts about the module *)

Section module_facts.
Implicit Types (M : instance) (st : state) (h : gmap loc object) (o : object)
  (l : loc) (k : pkey) (v : value) (fuel : nat).

Lemma isFail_tagged_object M fuel st l :
  toString fuel st (VRef l) = Ok "[object Object]" ->
  isFail M fuel st (VRef l) = has_property fuel (heap st) l (KSym (__fail__ M)).
Proof. intros H. unfold isFail, isObject. rewrite H. done. Qed.

Lemma isFail_other_tag M fuel st v s :
  toString fuel st v = Ok s -> s ≠ "[object Object]" ->
  isFail M fuel st v = Ok false.
Proof.
  intros H Hs. unfold isFail, isObject. rewrite H. simpl.
  apply String.eqb_neq in Hs. by rewrite Hs.
Qed.

Lemma isFail_true_inv M fuel st v :
  isFail M fuel st v = Ok true ->
  ∃ l, v = VRef l ∧ toString fuel st v = Ok "[object Object]"
       ∧ has_property fuel (heap st) l (KSym (__fail__ M)) = Ok true.
Proof.
  unfold isFail, isObject.
  destruct (toString fuel st v) as [s| |] eqn:Hs; simpl; try done.
  destruct (String.eqb s "[object Object]") eqn:Heq; simpl; [|done].
  apply String.eqb_eq in Heq as ->.
  destruct v; simpl; try done. eauto.
Qed.

Lemma fail_props_marker M st m d :
  props (fail_object M st m d) !! KSym (__fail__ M) = Some (PData (VBool true) true true true).
Proof.
  simpl. unfold literal_props. simpl.
  rewrite !lookup_insert_ne by done. apply lookup_insert_eq.
Qed.

Lemma fail_props_message M st m d :
  props (fail_object M st m d) !! KStr "message" = Some (PData m true true true).
Proof.
  simpl. unfold literal_props. simpl.
  rewrite lookup_insert_ne by done. apply lookup_insert_eq.
Qed.

Lemma fail_props_data M st m d :
  props (fail_object M st m d) !! KStr "data" = Some (PData d true true true).
Proof. simpl. unfold literal_props. simpl. apply lookup_insert_eq. Qed.

Lemma fail_props_tag M st m d :
  props (fail_object M st m d) !! toStringTag = None
  ∨ props (fail_object M st m d) !! toStringTag = Some (PData (VBool true) true true true).
Proof.
  simpl. unfold literal_props. simpl.
  rewrite !lookup_insert_ne by done.
  destruct (decide (KSym (__fail__ M) = toStringTag)) as [->|Hne].
  - right. apply lookup_insert_eq.
  - left. by rewrite lookup_insert_ne.
Qed.

Lemma fail_object_intrinsics M st st' m d :
  intrinsics st' = intrinsics st -> fail_object M st' m d = fail_object M st m d.
Proof. unfold fail_object. by intros ->. Qed.

Lemma mkFail_spec M args st v st' :
  mkFail M args st = (v, st') ->
  ∃ l, v = VRef l ∧ heap st !! l = None
       ∧ heap st' = <[l := fail_object M st (arg 0 args) (or_default (arg 1 args) (empty M))]> (heap st)
       ∧ symbols st' = symbols st ∧ intrinsics st' = intrinsics st.
Proof. apply alloc_spec. Qed.

Lemma mkFail_extends M args st v st' :
  mkFail M args st = (v, st') -> heap st ⊆ heap st'.
Proof. apply alloc_extends. Qed.

(** What [mkFail] returns is a failure record in the resulting state. *)
Lemma mkFail_fail_record M args st v st' :
  mkFail M args st = (v, st') -> fail_record M st' v.
Proof.
  intros (l & -> & _ & Hh & _ & Hr)%mkFail_spec.
  exists l, (arg 0 args), (or_default (arg 1 args) (empty M)).
  split; [done|]. rewrite Hh, lookup_insert_eq.
  by rewrite (fail_object_intrinsics _ _ _ _ _ Hr).
Qed.

(** [toString] on a failure record. *)
Lemma toString_fail_object M st fuel l m d :
  root_ok st = true -> 2 ≤ fuel ->
  heap st !! l = Some (fail_object M st m d) ->
  toString fuel st (VRef l) = Ok "[object Object]".
Proof.
  intros Hroot Hf Ho. unfold toString, object_prototype_toString.
  rewrite Ho, (get_tag_below st fuel l _ Hroot Hf Ho) by done.
  by destruct (fail_props_tag M st m d) as [-> | ->].
Qed.

(** A failure record is recognised. *)
Lemma isFail_fail_record M st fuel v :
  root_ok st = true -> 2 ≤ fuel -> fail_record M st v ->
  isFail M fuel st v = Ok true.
Proof.
  intros Hroot Hf (l & m & d & -> & Ho).
  rewrite isFail_tagged_object by eauto using toString_fail_object.
  destruct fuel as [|fuel]; [lia|].
  eauto using has_property_own, fail_props_marker.
Qed.
End module_facts.

(** ** Definite answers *)

Section definite.
Implicit Types (M : instance) (st : state) (h : gmap loc object) (o : object)
  (l : loc) (k : pkey) (v : value) (fuel n : nat).

(** The tag that [toString] computes for a primitive whose prototype is
    [l], or for an array below [l], is not [Object]. *)
Lemma get_tag_wrapper st fuel builtin l :
  root_ok st = true -> wrapper_ok st builtin l = true -> 2 ≤ fuel ->
  ∃ t, get fuel (heap st) l toStringTag = Ok t
       ∧ tagged builtin t ≠ "[object Object]".
Proof.
  intros Hroot Hw Hf. unfold wrapper_ok in Hw.
  destruct (heap st !! l) as [o|] eqn:Ho; [|done].
  apply andb_prop in Hw as [Hp Ht]. apply bool_decide_eq_true in Hp.
  rewrite (get_tag_below st fuel l o Hroot Hf Ho Hp).
  destruct (props o !! toStringTag) as [[t w e c|]|]; [| done |].
  - exists t. split; [done|]. by apply String.eqb_neq, negb_true_iff.
  - exists VUndefined. split; [done|]. by apply String.eqb_neq, negb_true_iff.
Qed.

Lemma toString_wrapped st fuel builtin l :
  root_ok st = true -> wrapper_ok st builtin l = true -> 2 ≤ fuel ->
  ∃ s, tagged builtin <$> get fuel (heap st) l toStringTag = Ok s
       ∧ s ≠ "[object Object]".
Proof.
  intros Hroot Hw Hf.
  destruct (get_tag_wrapper st fuel builtin l Hroot Hw Hf) as (t & -> & Ht).
  by exists (tagged builtin t).
Qed.

Lemma tame_allocated n h l : tame n h l = true -> is_Some (h !! l).
Proof. destruct n; simpl; [done|]. destruct (h !! l); [eauto|done]. Qed.

Lemma get_tame n fuel h l :
  tame n h l = true -> n ≤ fuel -> ∃ t, get fuel h l toStringTag = Ok t.
Proof.
  revert fuel l. induction n as [|n IH]; intros fuel l Ht Hle; [done|].
  destruct fuel as [|fuel]; [lia|]. simpl in *.
  destruct (h !! l) as [o|]; [|done].
  destruct (props o !! toStringTag) as [[t w e c|[|t|t] s e c]|]; simpl; eauto.
  - done.
  - destruct (proto o); eauto with lia.
Qed.

Lemma has_property_tame n fuel h l k :
  tame n h l = true -> n ≤ fuel -> ∃ b, has_property fuel h l k = Ok b.
Proof.
  revert fuel l. induction n as [|n IH]; intros fuel l Ht Hle; [done|].
  destruct fuel as [|fuel]; [lia|]. simpl in *.
  destruct (h !! l) as [o|]; [|done].
  destruct (props o !! k); [eauto|].
  destruct (proto o) as [p|]; [|eauto].
  apply IH; [|lia].
  by destruct (props o !! toStringTag) as [[t w e c|[|t|t] s e c]|].
Qed.

(** [isFail] answers on every object whose prototype chain is tame. *)
Lemma isFail_tame M n fuel st l :
  tame n (heap st) l = true -> n ≤ fuel -> ∃ b, isFail M fuel st (VRef l) = Ok b.
Proof.
  intros Ht Hle. unfold isFail, isObject, toString, object_prototype_toString.
  destruct (tame_allocated _ _ _ Ht) as [o ->].
  destruct (get_tame n fuel _ l Ht Hle) as [t ->]. simpl.
  destruct (String.eqb _ _); simpl; [|eauto].
  eauto using has_property_tame.
Qed.

(** [isFail] on a primitive or absent value. *)
Lemma isFail_unboxed M fuel st v :
  pristine st = true -> 2 ≤ fuel ->
  is_primitive v || is_absent v = true ->
  isFail M fuel st v = Ok false.
Proof.
  unfold pristine. rewrite !andb_true_iff.
  intros [[[[[[Hroot Ha] Hb] Hn] Hs] Hy] Hi] Hf Hv.
  destruct v; try done; try (by eapply isFail_other_tag).
  all: unfold isFail, isObject, toString, object_prototype_toString.
  all: match goal with
       | |- context [tagged ?b <$> get _ _ ?l toStringTag] =>
         destruct (toString_wrapped st fuel b l) as (str & -> & Hne%String.eqb_neq);
           [done..|]
       end.
  all: simpl; by rewrite Hne.
Qed.

(** [isFail] on an array as an array literal builds it. *)
Lemma isFail_plain_array M fuel st v :
  pristine st = true -> 3 ≤ fuel -> plain_array st v = true ->
  isFail M fuel st v = Ok false.
Proof.
  unfold pristine. rewrite !andb_true_iff.
  intros [[[[[[Hroot Ha] _] _] _] _] _] Hf Hv.
  destruct v as [| | | | | | |l]; try done. simpl in Hv.
  destruct (heap st !! l) as [o|] eqn:Ho; [|done].
  rewrite !andb_true_iff, !bool_decide_eq_true in Hv. destruct Hv as [[Hk Hp] Ht].
  unfold isFail, isObject, toString, object_prototype_toString. rewrite Ho, Hk.
  change (builtin_tag KArray) with "Array".
  destruct fuel as [|fuel]; [lia|].
  rewrite (get_step _ _ _ _ _ _ Ho Ht Hp).
  destruct (toString_wrapped st fuel "Array" _ Hroot Ha ltac:(lia))
    as (s & -> & Hne%String.eqb_neq).
  simpl. by rewrite Hne.
Qed.
End definite.

(** ** Loading the module, and what later steps preserve *)

Section steps.
Implicit Types (M : instance) (st : state) (h : gmap loc object) (o : object)
  (l e : loc) (k : pkey) (v : value) (fuel n : nat).

Lemma init_spec st M st' :
  init st = (M, st') ->
  ∃ e, heap st !! e = None
       ∧ M = {| __fail__ := Created (length (symbols st)); empty := VRef e |}
       ∧ heap st' = <[e := frozen_empty]> (heap st)
       ∧ symbols st' = (symbols st ++ ["fail"])%list
       ∧ intrinsics st' = intrinsics st.
Proof.
  unfold init, symbol_new, object_create, alloc, object_freeze, with_heap. simpl.
  intros [= <- <-]. exists (fresh (dom (heap st))). simpl.
  split; [apply not_elem_of_dom, is_fresh|].
  split; [done|]. split; [|done].
  rewrite alter_insert_eq. unfold freeze_object. simpl. by rewrite fmap_empty.
Qed.

Lemma init_extends st M st' : init st = (M, st') -> heap st ⊆ heap st'.
Proof. intros (e & He & _ & -> & _)%init_spec. by apply insert_subseteq. Qed.

Lemma init_default_intact st M st' : init st = (M, st') -> default_intact M st'.
Proof.
  intros (e & _ & -> & Hh & _)%init_spec. exists e. by rewrite Hh, lookup_insert_eq.
Qed.

Lemma alloc_keeps o st v st' l x :
  alloc o st = (v, st') -> heap st !! l = Some x -> heap st' !! l = Some x.
Proof. intros Ha Hl. eapply lookup_weaken; eauto using alloc_extends. Qed.

(** An assignment changes at most the receiver. *)
Lemma set_on_receiver_frame h recv k v b h' l :
  set_on_receiver h recv k v = Ok (b, h') -> l ≠ recv -> h' !! l = h !! l.
Proof.
  unfold set_on_receiver. intros H Hne.
  destruct (h !! recv) as [o|]; [|done].
  destruct (props o !! k) as [[? [] ? ?|]|]; try destruct (extensible o);
    simplify_eq; try done; by rewrite lookup_insert_ne.
Qed.

Lemma ordinary_set_frame fuel h c recv k v b h' l :
  ordinary_set fuel h c recv k v = Ok (b, h') -> l ≠ recv -> h' !! l = h !! l.
Proof.
  revert c. induction fuel as [|fuel IH]; intros c H Hne; [done|].
  simpl in H. destruct (h !! c) as [o|]; [|done].
  destruct (props o !! k) as [[x w e0 c0|g s e0 c0]|].
  - destruct w; [eauto using set_on_receiver_frame|]. by injection H as <- <-.
  - destruct s; simpl in H; by simplify_eq.
  - destruct (proto o); eauto using set_on_receiver_frame.
Qed.

(** An assignment to the default record is refused. *)
Lemma ordinary_set_frozen_empty fuel h e k v r :
  h !! e = Some frozen_empty ->
  ordinary_set fuel h e e k v = Ok r -> r = (false, h).
Proof.
  intros He. destruct fuel as [|fuel]; [done|]. simpl.
  rewrite He. simpl. rewrite lookup_empty. unfold set_on_receiver.
  rewrite He. simpl. rewrite lookup_empty. congruence.
Qed.

Lemma js_set_keeps_default fuel st l k v b st' e :
  js_set fuel st l k v = Ok (b, st') ->
  heap st !! e = Some frozen_empty -> heap st' !! e = Some frozen_empty.
Proof.
  unfold js_set. intros H He.
  destruct (ordinary_set fuel (heap st) l l k v) as [[b' h']| |] eqn:Hs; [|done..].
  simpl in H. injection H as <- <-. simpl.
  destruct (decide (e = l)) as [->|Hne].
  - by apply (ordinary_set_frozen_empty _ _ _ _ _ _ He) in Hs as [= -> ->].
  - by rewrite (ordinary_set_frame _ _ _ _ _ _ _ _ _ Hs Hne).
Qed.

Lemma js_delete_keeps_default st l k b st' e :
  js_delete st l k = Ok (b, st') ->
  heap st !! e = Some frozen_empty -> heap st' !! e = Some frozen_empty.
Proof.
  unfold js_delete. intros H He.
  destruct (decide (e = l)) as [->|Hne].
  - rewrite He in H. simpl in H. rewrite lookup_empty in H. by injection H as <- <-.
  - destruct (heap st !! l) as [o|]; [|done].
    destruct (props o !! k) as [[? ? ? []|? ? ? []]|]; simplify_eq; try done;
      simpl; by rewrite lookup_insert_ne.
Qed.

Lemma object_freeze_keeps_default v st v' st' e :
  object_freeze v st = (v', st') ->
  heap st !! e = Some frozen_empty -> heap st' !! e = Some frozen_empty.
Proof.
  unfold object_freeze. intros H He.
  destruct v as [| | | | | | |l]; simplify_eq; try done. simpl.
  destruct (decide (l = e)) as [->|Hne].
  - rewrite lookup_alter_eq, He. simpl. unfold freeze_object. simpl.
    by rewrite fmap_empty.
  - by rewrite lookup_alter_ne.
Qed.

Lemma step_default_intact M st st' :
  step M st st' -> default_intact M st -> default_intact M st'.
Proof.
  intros Hstep (e & HM & He). exists e. split; [done|].
  destruct Hstep as [args st v st' H|fields st v st' H|p st v st' H|d st s st' H
                    |fuel st l k v b st' H|st l k b st' H|v st v' st' H].
  - eauto using alloc_keeps.
  - eauto using alloc_keeps.
  - eauto using alloc_keeps.
  - unfold symbol_new in H. by injection H as <- <-.
  - eauto using js_set_keeps_default.
  - eauto using js_delete_keeps_default.
  - eauto using object_freeze_keeps_default.
Qed.

Lemma steps_default_intact M st st' :
  rtc (step M) st st' -> default_intact M st -> default_intact M st'.
Proof. induction 1; eauto using step_default_intact. Qed.

(** One call of [mkFail] allocates one object. *)
Lemma mkFail_dom M args st v st' :
  mkFail M args st = (v, st') ->
  ∃ l, v = VRef l ∧ (l ∉ dom (heap st)) ∧ dom (heap st') = {[l]} ∪ dom (heap st).
Proof.
  intros (l & -> & Hl & -> & _)%mkFail_spec. exists l.
  split; [done|]. split; [by apply not_elem_of_dom|]. apply dom_insert_L.
Qed.
End steps.

(** ** Symbols *)

Section symbols.
Implicit Types (M : instance) (st : state) (h : gmap loc object) (o : object)
  (l e : loc) (k : pkey) (v : value) (fuel n i j : nat).

Lemma registered_lacks st l o i :
  symbols_registered st -> heap st !! l = Some o -> length (symbols st) ≤ i ->
  props o !! KSym (Created i) = None.
Proof.
  intros Hreg Ho Hi. destruct (props o !! KSym (Created i)) as [p|] eqn:Hp; [|done].
  pose proof (map_Forall_lookup_1 _ _ _ _ Hreg Ho) as Hprops. simpl in Hprops.
  pose proof (map_Forall_lookup_1 _ _ _ _ Hprops Hp) as Hk. simpl in Hk. lia.
Qed.

Lemma key_registered_mono n n' k : n ≤ n' -> key_registered n k -> key_registered n' k.
Proof. destruct k as [|[]]; simpl; lia. Qed.

Lemma init_registered st M st' :
  symbols_registered st -> init st = (M, st') -> symbols_registered st'.
Proof.
  intros Hreg (e & He & _ & Hh & Hs & _)%init_spec.
  unfold symbols_registered. rewrite Hh, Hs, length_app. simpl.
  apply map_Forall_insert_2.
  - apply map_Forall_empty.
  - eapply map_Forall_impl; [exact Hreg|]. simpl. intros l o Ho.
    eapply map_Forall_impl; [exact Ho|]. simpl. intros k _.
    apply key_registered_mono. lia.
Qed.

Lemma lacks_extends k st st' l :
  heap st ⊆ heap st' -> lacks k st l = true -> lacks k st' l = true.
Proof.
  intros Hsub. unfold lacks. destruct (heap st !! l) as [o|] eqn:Ho; [|done].
  by rewrite (lookup_weaken _ _ _ _ Ho Hsub).
Qed.


End symbols.

(** ** Right after loading *)

Section at_load.
Implicit Types (M : instance) (st : state) (h : gmap loc object) (o : object)
  (l : loc) (k : pkey) (v : value) (fuel : nat).

Lemma has_property_nowhere fuel h l k :
  (∀ l' o, h !! l' = Some o -> props o !! k = None) ->
  has_property fuel h l k ≠ Ok true.
Proof.
  intros Hno. revert l. induction fuel as [|fuel IH]; intros l; [done|]. simpl.
  destruct (h !! l) as [o|] eqn:Ho; [|done].
  rewrite (Hno _ _ Ho). destruct (proto o); [apply IH|done].
Qed.

Lemma init_symbol_unused st M st' l o :
  symbols_registered st -> init st = (M, st') -> heap st' !! l = Some o ->
  props o !! KSym (__fail__ M) = None.
Proof.
  intros Hreg Hinit Ho.
  pose proof (init_registered _ _ _ Hreg Hinit) as Hreg'.
  apply init_spec in Hinit as (e & _ & -> & Hh & Hs & _). simpl.
  rewrite Hh in Ho. apply lookup_insert_Some in Ho as [[_ <-]|[_ Ho]]; [done|].
  eauto using registered_lacks.
Qed.
End at_load.

(** ** Frames: what an answer depends on *)

Section frames.
Implicit Types (M : instance) (st : state) (h : gmap loc object) (o : object)
  (l : loc) (k : pkey) (v : value) (fuel : nat).

Lemma get_extends fuel h h' l k v :
  h ⊆ h' -> get fuel h l k = Ok v -> get fuel h' l k = Ok v.
Proof.
  intros Hsub. revert l. induction fuel as [|fuel IH]; intros l; [done|]. simpl.
  destruct (h !! l) as [o|] eqn:Ho; [|done].
  rewrite (lookup_weaken _ _ _ _ Ho Hsub).
  destruct (props o !! k); [done|]. destruct (proto o); eauto.
Qed.





(** The string between the brackets of a tag. *)
Lemma append_inj_r (s t : string) (c : Ascii.ascii) :
  s +:+ String c "" = t +:+ String c "" -> s = t.
Proof.
  revert t. induction s as [|a s IH]; intros [|b t]; simpl; intros H.
  - done.
  - injection H as -> H. by destruct t.
  - injection H as -> H. by destruct s.
  - injection H as -> H. f_equal. by apply IH.
Qed.

Lemma tagged_Object_inv builtin s :
  tagged builtin (VString s) = "[object Object]" -> s = "Object".
Proof.
  unfold tagged. simpl. intros H. injection H as H.
  eapply (append_inj_r s "Object"). exact H.
Qed.

Lemma tagged_exotic (kd : kind) t :
  kd ≠ KOrdinary -> (∀ s, t ≠ VString s) ->
  String.eqb (tagged (builtin_tag kd) t) "[object Object]" = false.
Proof.
  intros Hk Ht. destruct t; try (by destruct kd); by destruct (Ht s).
Qed.

Lemma fail_props_tag_none M st m d i :
  __fail__ M = Created i -> props (fail_object M st m d) !! toStringTag = None.
Proof.
  intros Hi. simpl. unfold literal_props. simpl. rewrite Hi.
  by rewrite !lookup_insert_ne.
Qed.

Lemma fail_object_plain M st m d i :
  __fail__ M = Created i -> plain st (fail_object M st m d) = true.
Proof.
  intros Hi. unfold plain. rewrite !andb_true_iff, !bool_decide_eq_true.
  eauto using fail_props_tag_none.
Qed.

(** A failure value is not [Object.prototype]. *)
Lemma fail_object_not_root M st l m d :
  root_ok st = true -> heap st !! l = Some (fail_object M st m d) ->
  l ≠ object_prototype (intrinsics st).
Proof.
  intros (r & Hr & Hrp & _)%root_ok_spec Ho ->. by simplify_eq.
Qed.

(** What an assignment can do to the heap: nothing, or one more or one
    changed property on the receiver. *)
Lemma set_on_receiver_shape h recv k v b h' :
  set_on_receiver h recv k v = Ok (b, h') ->
  h' = h ∨ ∃ o p, h !! recv = Some o ∧ h' = <[recv := with_props (insert k p) o]> h.
Proof.
  unfold set_on_receiver. intros H.
  destruct (h !! recv) as [o|]; [|done].
  destruct (props o !! k) as [[x [] e c|]|]; try destruct (extensible o);
    simplify_eq; eauto.
Qed.

Lemma ordinary_set_shape fuel h c recv k v b h' :
  ordinary_set fuel h c recv k v = Ok (b, h') ->
  h' = h ∨ ∃ o p, h !! recv = Some o ∧ h' = <[recv := with_props (insert k p) o]> h.
Proof.
  revert c. induction fuel as [|fuel IH]; intros c H; [done|].
  simpl in H. destruct (h !! c) as [o|]; [|done].
  destruct (props o !! k) as [[x w e0 c0|g s e0 c0]|].
  - destruct w; [eauto using set_on_receiver_shape|]. left. by injection H.
  - destruct s; simpl in H; simplify_eq; eauto.
  - destruct (proto o); eauto using set_on_receiver_shape.
Qed.

Lemma with_heap_id st : with_heap (fun _ => heap st) st = st.
Proof. by destruct st. Qed.
End frames.

(** ** A failure value in the hands of its holder *)

Section holder_facts.
Implicit Types (M : instance) (st : state) (h : gmap loc object) (o : object)
  (l : loc) (k : pkey) (v : value) (fuel : nat).

Lemma ordinary_set_miss_step fuel h l recv o k v q :
  h !! l = Some o -> props o !! k = None -> proto o = Some q ->
  ordinary_set (S fuel) h l recv k v = ordinary_set fuel h q recv k v.
Proof. intros Hl Hk Hq. simpl. by rewrite Hl, Hk, Hq. Qed.

Lemma ordinary_set_miss_end fuel h l recv o k v :
  h !! l = Some o -> props o !! k = None -> proto o = None ->
  ordinary_set (S fuel) h l recv k v = set_on_receiver h recv k v.
Proof. intros Hl Hk Hq. simpl. by rewrite Hl, Hk, Hq. Qed.

Lemma set_on_receiver_new h recv o k v :
  h !! recv = Some o -> props o !! k = None -> extensible o = true ->
  set_on_receiver h recv k v
  = Ok (true, <[recv := with_props (insert k (PData v true true true)) o]> h).
Proof. intros Hl Hk He. unfold set_on_receiver. by rewrite Hl, Hk, He. Qed.

Lemma root_ok_update st st' l o :
  root_ok st = true -> l ≠ object_prototype (intrinsics st) ->
  heap st' = <[l := o]> (heap st) -> intrinsics st' = intrinsics st ->
  root_ok st' = true.
Proof.
  intros Hroot Hne Hh Hr. unfold root_ok in *.
  by rewrite Hh, Hr, lookup_insert_ne.
Qed.

Lemma lacks_update k st st' l o :
  lacks k st (object_prototype (intrinsics st)) = true ->
  l ≠ object_prototype (intrinsics st) ->
  heap st' = <[l := o]> (heap st) -> intrinsics st' = intrinsics st ->
  lacks k st' (object_prototype (intrinsics st')) = true.
Proof.
  intros Hlack Hne Hh Hr. unfold lacks in *.
  by rewrite Hh, Hr, lookup_insert_ne.
Qed.

(** The state in which [mkFail] leaves its result. *)
Lemma mkFail_result M st0 st0' args st st1 l :
  init st0 = (M, st0') -> root_ok st = true -> mkFail M args st = (VRef l, st1) ->
  ∃ o, heap st1 !! l = Some o
       ∧ o = fail_object M st1 (arg 0 args) (or_default (arg 1 args) (empty M))
       ∧ plain st1 o = true
       ∧ root_ok st1 = true
       ∧ l ≠ object_prototype (intrinsics st1)
       ∧ intrinsics st1 = intrinsics st
       ∧ heap st ⊆ heap st1.
Proof.
  intros Hinit Hroot Hmk.
  pose proof (mkFail_extends _ _ _ _ _ Hmk) as Hsub.
  destruct (init_spec _ _ _ Hinit) as (e & _ & HM & _).
  destruct (mkFail_spec _ _ _ _ _ Hmk) as (l0 & [= <-] & _ & Hh & _ & Hr).
  assert (root_ok st1 = true) as Hroot1 by eauto using root_ok_extends.
  assert (heap st1 !! l
          = Some (fail_object M st1 (arg 0 args) (or_default (arg 1 args) (empty M)))) as Ho.
  { rewrite Hh, lookup_insert_eq. f_equal. symmetry. by apply fail_object_intrinsics. }
  eexists. split; [exact Ho|]. split; [done|].
  split; [eapply fail_object_plain; by rewrite HM|].
  eauto 10 using fail_object_not_root.
Qed.
End holder_facts.

(** ** Answers and allocation *)

Section allocation.
Implicit Types (M : instance) (st : state) (h : gmap loc object) (o : object)
  (l : loc) (k : pkey) (v : value) (fuel : nat).


(** The default record passes the shape test and has no key. *)
Lemma default_intact_answers M st fuel :
  default_intact M st -> 1 ≤ fuel ->
  isObject fuel st (empty M) = Ok true ∧ isFail M fuel st (empty M) = Ok false.
Proof.
  intros (e & -> & He) Hf. destruct fuel as [|fuel]; [lia|].
  assert (toString (S fuel) st (VRef e) = Ok "[object Object]") as Hts.
  { unfold toString, object_prototype_toString. rewrite He.
    by erewrite get_end; [|exact He|apply lookup_empty|]. }
  split.
  - unfold isObject. by rewrite Hts.
  - rewrite isFail_tagged_object by done.
    by erewrite has_property_end; [|exact He|apply lookup_empty|].
Qed.
End allocation.

(** ** Objects are never deallocated *)

Section allocated.
Implicit Types (M : instance) (st : state) (h : gmap loc object) (o : object)
  (l : loc) (k : pkey) (v : value) (fuel : nat).

Lemma step_allocated M st st' l :
  step M st st' -> is_Some (heap st !! l) -> is_Some (heap st' !! l).
Proof.
  intros Hstep [o Ho].
  destruct Hstep as [args st v st' H|fields st v st' H|p st v st' H|d st s st' H
                    |fuel st l0 k v b st' H|st l0 k b st' H|v st v' st' H].
  - eauto using alloc_keeps.
  - eauto using alloc_keeps.
  - eauto using alloc_keeps.
  - unfold symbol_new in H. injection H as <- <-. eauto.
  - unfold js_set in H.
    destruct (ordinary_set fuel (heap st) l0 l0 k v) as [[b' h']| |] eqn:Hos; [|done..].
    simpl in H. injection H as <- <-. simpl.
    destruct (ordinary_set_shape _ _ _ _ _ _ _ _ Hos) as [->|(o' & p & Ho' & ->)]; [eauto|].
    rewrite lookup_insert_is_Some. destruct (decide (l0 = l)); eauto.
  - unfold js_delete in H. destruct (heap st !! l0) as [o0|] eqn:Ho0; [|done].
    destruct (props o0 !! k) as [[? ? ? []|? ? ? []]|]; simplify_eq; simpl; eauto;
      rewrite lookup_insert_is_Some; destruct (decide (l0 = l)); eauto.
  - unfold object_freeze in H. destruct v; simplify_eq; simpl; eauto.
    rewrite lookup_alter_is_Some. eauto.
Qed.

Lemma steps_allocated M st st' l :
  rtc (step M) st st' -> is_Some (heap st !! l) -> is_Some (heap st' !! l).
Proof. induction 1; eauto using step_allocated. Qed.
End allocated.

(** ** Assignments that run no setter *)

Section assignments.
Implicit Types (M : instance) (st : state) (h : gmap loc object) (o : object)
  (l : loc) (k : pkey) (v x : value) (fuel : nat).

(** An assignment to an own writable data property takes effect. *)
Lemma js_set_own_writable fuel st l o k v e c x :
  heap st !! l = Some o -> props o !! k = Some (PData v true e c) ->
  js_set (S fuel) st l k x
  = Ok (true, with_heap (fun _ => <[l := with_props (insert k (PData x true e c)) o]> (heap st)) st).
Proof.
  intros Ho Hk. unfold js_set. simpl. rewrite Ho, Hk.
  unfold set_on_receiver. by rewrite Ho, Hk.
Qed.

(** Where no accessor is met, an assignment either is refused and changes
    nothing or leaves the assigned value in a data property of the
    receiver. *)
Lemma set_on_receiver_data h recv o k x b h' :
  h !! recv = Some o -> data_only k o ->
  set_on_receiver h recv k x = Ok (b, h') ->
  (b = false ∧ h' = h)
  ∨ (b = true ∧ ∃ w e c, h' = <[recv := with_props (insert k (PData x w e c)) o]> h).
Proof.
  intros Ho Hd. unfold set_on_receiver. rewrite Ho.
  destruct (props o !! k) as [[y [] e c|g s e c]|] eqn:Hk.
  - intros [= <- <-]. right. eauto.
  - intros [= <- <-]. by left.
  - by destruct (Hd g s e c).
  - destruct (extensible o); intros [= <- <-]; [right; eauto|by left].
Qed.

Lemma ordinary_set_below_root fuel h l o root r k x b h' :
  h !! l = Some o -> proto o = Some root -> data_only k o ->
  h !! root = Some r -> proto r = None -> data_only k r ->
  ordinary_set fuel h l l k x = Ok (b, h') ->
  (b = false ∧ h' = h)
  ∨ (b = true ∧ ∃ w e c, h' = <[l := with_props (insert k (PData x w e c)) o]> h).
Proof.
  intros Ho Hp Hdo Hr Hrp Hdr.
  destruct fuel as [|fuel]; [done|]. simpl. rewrite Ho.
  destruct (props o !! k) as [[y [] e c|g s e c]|] eqn:Hk.
  - eauto using set_on_receiver_data.
  - intros [= <- <-]. by left.
  - by destruct (Hdo g s e c).
  - rewrite Hp. destruct fuel as [|fuel]; [done|]. simpl. rewrite Hr.
    destruct (props r !! k) as [[y [] e c|g s e c]|] eqn:Hrk.
    + eauto using set_on_receiver_data.
    + intros [= <- <-]. by left.
    + by destruct (Hdr g s e c).
    + rewrite Hrp. eauto using set_on_receiver_data.
Qed.

(** The properties of what [mkFail] builds are data properties. *)
Lemma fail_object_data_only M st m d k : data_only k (fail_object M st m d).
Proof.
  intros g s e c. simpl. unfold literal_props. simpl. intros H.
  repeat (apply lookup_insert_Some in H as [[_ H]|[_ H]]; [done|]).
  by rewrite lookup_empty in H.
Qed.

Lemma accessor_free_data_only k st l o :
  accessor_free k st l = true -> heap st !! l = Some o -> data_only k o.
Proof.
  unfold accessor_free. intros H Ho g s e c Hk. by rewrite Ho, Hk in H.
Qed.
End assignments.

(** ** The claims *)

(** C1. For every string [m] and every data value [d], [isFail] returns
    [true] on what [mkFail(m, d)] returns (in a realm whose
    [Object.prototype] is as the language sets it up). *)
Theorem isFail_mkFail (M : instance) (st st' : state) (m : string) (d v : value) (fuel : nat) :
  root_ok st = true ->
  2 ≤ fuel ->
  mkFail M [VString m; d] st = (v, st') ->
  isFail M fuel st' v = Ok true.
Proof.
  intros Hroot Hf Hmk.
  apply isFail_fail_record; [|done|by eapply mkFail_fail_record].
  pose proof (mkFail_extends _ _ _ _ _ Hmk) as Hsub.
  apply mkFail_spec in Hmk as (l & _ & _ & _ & _ & Hr).
  eauto using root_ok_extends.
Qed.

Lemma isFail_mkFail_witness :
  isFail loaded.1 2
         (mkFail loaded.1 [VString "division by zero"; VNumber 42] loaded.2).2
         (mkFail loaded.1 [VString "division by zero"; VNumber 42] loaded.2).1
  = Ok true.
Proof.
  apply (isFail_mkFail loaded.1 loaded.2 _ "division by zero" (VNumber 42)).
  - vm_compute. reflexivity.
  - lia.
  - reflexivity.
Defined.

(** C2. A plain record that does not carry the discriminant is not
    recognised, whatever other fields it has ([message] and [data]
    included): neither the record nor [Object.prototype], from which it
    inherits, has the symbol as a key. *)
Theorem isFail_rejects_unmarked (M : instance) (st : state) (l : loc) (o : object) (fuel : nat) :
  root_ok st = true ->
  lacks (KSym (__fail__ M)) st (object_prototype (intrinsics st)) = true ->
  heap st !! l = Some o ->
  plain st o = true ->
  props o !! KSym (__fail__ M) = None ->
  2 ≤ fuel ->
  isFail M fuel st (VRef l) = Ok false.
Proof.
  intros Hroot Hlack Ho Hplain Hown Hf.
  rewrite isFail_tagged_object by eauto using toString_plain.
  unfold plain in Hplain. rewrite !andb_true_iff, !bool_decide_eq_true in Hplain.
  destruct Hplain as [[_ Hp] _].
  apply root_ok_spec in Hroot as (r & Hr & Hrp & _).
  unfold lacks in Hlack. rewrite Hr in Hlack. apply bool_decide_eq_true in Hlack.
  destruct fuel as [|[|fuel]]; try lia.
  rewrite (has_property_step _ _ _ _ _ _ Ho Hown Hp).
  eauto using has_property_end.
Qed.

Lemma isFail_rejects_unmarked_witness :
  isFail loaded.1 2 lookalike.2 lookalike.1 = Ok false.
Proof.
  apply (isFail_rejects_unmarked loaded.1 lookalike.2 8
           {| okind := KOrdinary; proto := Some 0; extensible := true;
              props := literal_props [(KStr "message", VString "not a failure");
                                      (KStr "data", VNull)] |} 2).
  - vm_compute. reflexivity.
  - vm_compute. reflexivity.
  - vm_compute. reflexivity.
  - vm_compute. reflexivity.
  - vm_compute. reflexivity.
  - lia.
Defined.

(** Reading the fields of what [mkFail] returns. *)
Lemma mkFail_fields (M : instance) (args : list value) (st st' : state) (l : loc) (fuel : nat) :
  1 ≤ fuel ->
  mkFail M args st = (VRef l, st') ->
  get fuel (heap st') l (KStr "message") = Ok (arg 0 args)
  ∧ get fuel (heap st') l (KStr "data") = Ok (or_default (arg 1 args) (empty M)).
Proof.
  intros Hf (l' & [= <-] & _ & Hh & _ & _)%mkFail_spec.
  destruct fuel as [|fuel]; [lia|].
  split.
  - eapply get_data; [by rewrite Hh, lookup_insert_eq|]. apply fail_props_message.
  - eapply get_data; [by rewrite Hh, lookup_insert_eq|]. apply fail_props_data.
Qed.

(** C3, as amended. For every string [m] and every data value [d] other
    than [undefined], the [message] of [mkFail(m, d)] is [m] and its
    [data] is [d] itself: the same primitive, or the same reference. *)
Theorem mkFail_keeps_arguments (M : instance) (st st' : state) (m : string) (d : value)
    (l : loc) (fuel : nat) :
  d ≠ VUndefined ->
  1 ≤ fuel ->
  mkFail M [VString m; d] st = (VRef l, st') ->
  get fuel (heap st') l (KStr "message") = Ok (VString m)
  ∧ get fuel (heap st') l (KStr "data") = Ok d.
Proof.
  intros Hd Hf Hmk.
  destruct (mkFail_fields _ _ _ _ _ _ Hf Hmk) as [Hm Hdata].
  split; [done|]. rewrite Hdata. simpl. by destruct d.
Qed.

Lemma mkFail_keeps_arguments_witness :
  get 1 (heap (mkFail loaded.1 [VString "division by zero"; VRef 0] loaded.2).2)
      8 (KStr "message") = Ok (VString "division by zero")
  ∧ get 1 (heap (mkFail loaded.1 [VString "division by zero"; VRef 0] loaded.2).2)
      8 (KStr "data") = Ok (VRef 0).
Proof.
  apply (mkFail_keeps_arguments loaded.1 loaded.2).
  - discriminate.
  - lia.
  - vm_compute. reflexivity.
Defined.

(** C3, as stated, fails when the data value is [undefined]: the [data]
    of the result is then the default record, not [undefined]. *)
Lemma mkFail_undefined_data_replaced :
  ¬ (∀ (M : instance) (st st' : state) (m : string) (d : value) (l : loc),
       mkFail M [VString m; d] st = (VRef l, st') ->
       get 1 (heap st') l (KStr "message") = Ok (VString m)
       ∧ get 1 (heap st') l (KStr "data") = Ok d).
Proof.
  intros H.
  destruct (H loaded.1 loaded.2
              (mkFail loaded.1 [VString "m"; VUndefined] loaded.2).2
              "m" VUndefined 8 eq_refl) as [_ Hdata].
  vm_compute in Hdata. discriminate.
Qed.


(** C9. [isFail] tests that the symbol keys a property, not what the
    property holds: a plain object with the key is recognised whatever is
    stored under it. *)
Theorem isFail_ignores_marker_value (M : instance) (st : state) (l : loc) (o : object)
    (p : prop) (fuel : nat) :
  root_ok st = true ->
  heap st !! l = Some o ->
  plain st o = true ->
  props o !! KSym (__fail__ M) = Some p ->
  2 ≤ fuel ->
  isFail M fuel st (VRef l) = Ok true.
Proof.
  intros Hroot Ho Hplain Hp Hf.
  rewrite isFail_tagged_object by eauto using toString_plain.
  destruct fuel as [|fuel]; [lia|]. eauto using has_property_own.
Qed.

Lemma isFail_ignores_marker_value_witness :
  isFail loaded.1 2 forged.2 forged.1 = Ok true.
Proof.
  apply (isFail_ignores_marker_value loaded.1 forged.2 8
           {| okind := KOrdinary; proto := Some 0; extensible := true;
              props := literal_props [(KSym (__fail__ loaded.1), VBool false)] |}
           (PData (VBool false) true true true) 2).
  - vm_compute. reflexivity.
  - vm_compute. reflexivity.
  - vm_compute. reflexivity.
  - vm_compute. reflexivity.
  - lia.
Defined.

(** C4, as amended. In a pristine realm (the built-in prototypes as the
    language sets them up) [isFail] returns [false], and raises nothing, on
    every primitive, on [null] and [undefined] and on every plain array;
    and it returns a boolean, and raises nothing, on every ordinary object
    or array (cyclic ones included; proxies aside) on whose prototype
    chain no [Symbol.toStringTag] getter throws. *)
Theorem isFail_definite (M : instance) (st : state) (v : value) (n fuel : nat) :
  pristine st = true ->
  plain_array st v || tame_value n st v = true ->
  n ≤ fuel ->
  3 ≤ fuel ->
  ∃ b, isFail M fuel st v = Ok b
       ∧ (is_primitive v || is_absent v || plain_array st v = true -> b = false).
Proof.
  intros Hp Ht Hle Hf.
  destruct (is_primitive v || is_absent v) eqn:Hu.
  - exists false. split; [|done]. apply isFail_unboxed; [done|lia|done].
  - destruct (plain_array st v) eqn:Ha.
    + exists false. split; [|done]. by apply isFail_plain_array.
    + simpl in Ht. destruct v as [| | | | | | |l]; try done.
      destruct (isFail_tame M n fuel st l Ht Hle) as [b Hb].
      exists b. split; [done|]. done.
Qed.

Lemma isFail_definite_witness :
  ∃ b, isFail loaded.1 3 cyclic.2 cyclic.1 = Ok b
       ∧ (is_primitive cyclic.1 || is_absent cyclic.1 || plain_array cyclic.2 cyclic.1 = true
          -> b = false).
Proof.
  apply (isFail_definite loaded.1 cyclic.2 cyclic.1 2 3).
  - vm_compute. reflexivity.
  - vm_compute. reflexivity.
  - lia.
  - lia.
Defined.

(** C4, as stated, fails on an object whose [Symbol.toStringTag] getter
    throws: [isFail] raises what the getter throws. *)
Lemma isFail_raises_on_throwing_tag :
  pristine trap.2 = true
  ∧ (∃ l o, trap.1 = VRef l ∧ heap trap.2 !! l = Some o ∧ okind o = KOrdinary)
  ∧ ∀ fuel, 1 ≤ fuel -> isFail loaded.1 fuel trap.2 trap.1 = Throw (Thrown (VString "boom")).
Proof.
  split; [by vm_compute|]. split.
  - eexists _, _. split; [reflexivity|]. split; [by vm_compute|done].
  - intros [|fuel] Hf; [lia|]. reflexivity.
Qed.

(** C5. Once the module is loaded, every call of [mkFail] with a message
    only yields a [data] that is the module's default record: the same
    reference for every such call, to a record that has no property and
    no prototype and is frozen, whatever the program and its callers did
    in between; and each call allocates one object, the result itself. *)
Theorem default_data_shared (M : instance) (st0 st1 st sa sb sc : state)
    (m1 m2 : string) (v1 v2 : value) :
  init st0 = (M, st1) ->
  rtc (step M) st1 st ->
  mkFail M [VString m1] st = (v1, sa) ->
  rtc (step M) sa sb ->
  mkFail M [VString m2] sb = (v2, sc) ->
  ∃ e l1 l2 o,
    empty M = VRef e ∧ v1 = VRef l1 ∧ v2 = VRef l2
    ∧ get 1 (heap sa) l1 (KStr "data") = Ok (VRef e)
    ∧ get 1 (heap sc) l2 (KStr "data") = Ok (VRef e)
    ∧ heap sa !! e = Some o ∧ heap sc !! e = Some o
    ∧ props o = ∅ ∧ proto o = None ∧ is_frozen o = true
    ∧ (l1 ∉ dom (heap st)) ∧ dom (heap sa) = {[l1]} ∪ dom (heap st)
    ∧ (l2 ∉ dom (heap sb)) ∧ dom (heap sc) = {[l2]} ∪ dom (heap sb).
Proof.
  intros Hinit Hst Hmk1 Hsb Hmk2.
  assert (default_intact M sa) as (e & HM & Hea).
  { eapply step_default_intact; [by eapply step_mkFail|].
    eauto using steps_default_intact, init_default_intact. }
  assert (default_intact M sc) as (e' & HM' & Hec).
  { eapply step_default_intact; [by eapply step_mkFail|].
    eapply steps_default_intact; [exact Hsb|]. by exists e. }
  assert (e' = e) as -> by congruence.
  destruct (mkFail_dom _ _ _ _ _ Hmk1) as (l1 & -> & Hl1 & Hd1).
  destruct (mkFail_dom _ _ _ _ _ Hmk2) as (l2 & -> & Hl2 & Hd2).
  destruct (mkFail_fields _ _ _ _ _ 1 ltac:(lia) Hmk1) as [_ Hdata1].
  destruct (mkFail_fields _ _ _ _ _ 1 ltac:(lia) Hmk2) as [_ Hdata2].
  simpl in Hdata1, Hdata2. rewrite HM in Hdata1, Hdata2.
  exists e, l1, l2, frozen_empty. repeat split; done.
Qed.

Lemma default_data_shared_witness :
  ∃ e l1 l2 o,
    empty loaded.1 = VRef e
    ∧ (mkFail loaded.1 [VString "not found"] loaded.2).1 = VRef l1
    ∧ (mkFail loaded.1 [VString "division by zero"]
         (mkFail loaded.1 [VString "not found"] loaded.2).2).1 = VRef l2
    ∧ get 1 (heap (mkFail loaded.1 [VString "not found"] loaded.2).2) l1 (KStr "data")
      = Ok (VRef e)
    ∧ get 1 (heap (mkFail loaded.1 [VString "division by zero"]
                     (mkFail loaded.1 [VString "not found"] loaded.2).2).2) l2 (KStr "data")
      = Ok (VRef e)
    ∧ heap (mkFail loaded.1 [VString "not found"] loaded.2).2 !! e = Some o
    ∧ heap (mkFail loaded.1 [VString "division by zero"]
              (mkFail loaded.1 [VString "not found"] loaded.2).2).2 !! e = Some o
    ∧ props o = ∅ ∧ proto o = None ∧ is_frozen o = true
    ∧ (l1 ∉ dom (heap loaded.2))
    ∧ dom (heap (mkFail loaded.1 [VString "not found"] loaded.2).2)
      = {[l1]} ∪ dom (heap loaded.2)
    ∧ (l2 ∉ dom (heap (mkFail loaded.1 [VString "not found"] loaded.2).2))
    ∧ dom (heap (mkFail loaded.1 [VString "division by zero"]
                   (mkFail loaded.1 [VString "not found"] loaded.2).2).2)
      = {[l2]} ∪ dom (heap (mkFail loaded.1 [VString "not found"] loaded.2).2).
Proof.
  apply (default_data_shared loaded.1 std_state loaded.2 loaded.2
           (mkFail loaded.1 [VString "not found"] loaded.2).2
           (mkFail loaded.1 [VString "not found"] loaded.2).2
           (mkFail loaded.1 [VString "division by zero"]
              (mkFail loaded.1 [VString "not found"] loaded.2).2).2
           "not found" "division by zero").
  - reflexivity.
  - apply rtc_refl.
  - reflexivity.
  - apply rtc_refl.
  - reflexivity.
Defined.




(** C7, as amended. A call of [mkFail] changes no object that exists:
    every object allocated before it, earlier failure values included, is
    afterwards as it was.  The value it returns is not frozen: an
    assignment by its holder to [message] or to [data] succeeds, and the
    field then reads the assigned value. *)
Theorem mkFail_keeps_existing_objects (M : instance) (args : list value) (st st1 : state)
    (l l1 : loc) (o : object) (x : value) :
  heap st !! l = Some o ->
  mkFail M args st = (VRef l1, st1) ->
  heap st1 !! l = Some o
  ∧ (∃ o1, heap st1 !! l1 = Some o1 ∧ is_frozen o1 = false)
  ∧ (∃ st2, js_set 1 st1 l1 (KStr "message") x = Ok (true, st2)
            ∧ get 1 (heap st2) l1 (KStr "message") = Ok x)
  ∧ (∃ st2, js_set 1 st1 l1 (KStr "data") x = Ok (true, st2)
            ∧ get 1 (heap st2) l1 (KStr "data") = Ok x).
Proof.
  intros Hl Hmk.
  pose proof (mkFail_extends _ _ _ _ _ Hmk) as Hsub.
  destruct (mkFail_spec _ _ _ _ _ Hmk) as (l0 & [= <-] & _ & Hh & _ & _).
  set (o1 := fail_object M st (arg 0 args) (or_default (arg 1 args) (empty M))) in *.
  assert (heap st1 !! l1 = Some o1) as Ho1 by (by rewrite Hh, lookup_insert_eq).
  split; [by eapply lookup_weaken|].
  split; [by exists o1|].
  split.
  - eexists. split; [eapply js_set_own_writable; [exact Ho1|apply fail_props_message]|].
    eapply get_data; [apply lookup_insert_eq|]. apply lookup_insert_eq.
  - eexists. split; [eapply js_set_own_writable; [exact Ho1|apply fail_props_data]|].
    eapply get_data; [apply lookup_insert_eq|]. apply lookup_insert_eq.
Qed.

Lemma mkFail_keeps_existing_objects_witness :
  heap (mkFail loaded.1 [VString "division by zero"] original.2).2 !! 8
  = Some (fail_object loaded.1 loaded.2 (VString "original") VNull)
  ∧ (∃ o1, heap (mkFail loaded.1 [VString "division by zero"] original.2).2 !! 9 = Some o1
           ∧ is_frozen o1 = false)
  ∧ (∃ st2, js_set 1 (mkFail loaded.1 [VString "division by zero"] original.2).2 9
              (KStr "message") (VString "changed") = Ok (true, st2)
            ∧ get 1 (heap st2) 9 (KStr "message") = Ok (VString "changed"))
  ∧ (∃ st2, js_set 1 (mkFail loaded.1 [VString "division by zero"] original.2).2 9
              (KStr "data") (VString "changed") = Ok (true, st2)
            ∧ get 1 (heap st2) 9 (KStr "data") = Ok (VString "changed")).
Proof.
  apply (mkFail_keeps_existing_objects loaded.1 [VString "division by zero"] original.2
           (mkFail loaded.1 [VString "division by zero"] original.2).2 8 9).
  - vm_compute. reflexivity.
  - vm_compute. reflexivity.
Defined.

(** C7, as stated, fails: the holder of a failure value can assign to its
    [message], and the value then reads differently. *)
Lemma mkFail_message_assignable :
  ¬ (∀ (M : instance) (st0 st1 st sa sb : state) (m : string) (d : value) (l : loc),
       init st0 = (M, st1) ->
       rtc (step M) st1 st ->
       mkFail M [VString m; d] st = (VRef l, sa) ->
       rtc (step M) sa sb ->
       get 1 (heap sb) l (KStr "message") = Ok (VString m)).
Proof.
  intros H.
  assert (js_set 1 original.2 8 (KStr "message") (VString "changed") = Ok (true, overwritten))
    as Hset by (vm_compute; reflexivity).
  specialize (H loaded.1 std_state loaded.2 loaded.2 original.2 overwritten
                "original" VNull 8 eq_refl ltac:(apply rtc_refl) eq_refl
                ltac:(eapply rtc_once, step_set, Hset)).
  vm_compute in H. discriminate.
Qed.

(** C8, as amended. If [isFail(v)] returns [true] then [v] is an object
    that [toString] tags [Object] and that has the module's symbol as a
    key, own or inherited; a value as [mkFail] built it is recognised and
    has its [message] and [data]; if [isFail(v)] returns [false] then [v]
    is not a value as [mkFail] built it. *)
Theorem isFail_meaning (M : instance) (st : state) (v : value) (fuel : nat) :
  root_ok st = true ->
  2 ≤ fuel ->
  (isFail M fuel st v = Ok true ->
     ∃ l, v = VRef l ∧ toString fuel st v = Ok "[object Object]"
          ∧ has_property fuel (heap st) l (KSym (__fail__ M)) = Ok true)
  ∧ (∀ l m d, v = VRef l -> heap st !! l = Some (fail_object M st m d) ->
       isFail M fuel st v = Ok true
       ∧ get fuel (heap st) l (KStr "message") = Ok m
       ∧ get fuel (heap st) l (KStr "data") = Ok d)
  ∧ (isFail M fuel st v = Ok false -> ¬ fail_record M st v).
Proof.
  intros Hroot Hf. split; [apply isFail_true_inv|]. split.
  - intros l m d -> Ho. split; [apply isFail_fail_record; [done..|by exists l, m, d]|].
    destruct fuel as [|fuel]; [lia|].
    split; eapply get_data; eauto using fail_props_message, fail_props_data.
  - intros Hfalse Hrec.
    rewrite (isFail_fail_record M st fuel v Hroot Hf Hrec) in Hfalse. discriminate.
Qed.

Lemma isFail_meaning_witness :
  (isFail loaded.1 2 original.2 original.1 = Ok true ->
     ∃ l, original.1 = VRef l ∧ toString 2 original.2 original.1 = Ok "[object Object]"
          ∧ has_property 2 (heap original.2) l (KSym (__fail__ loaded.1)) = Ok true)
  ∧ (∀ l m d, original.1 = VRef l ->
       heap original.2 !! l = Some (fail_object loaded.1 original.2 m d) ->
       isFail loaded.1 2 original.2 original.1 = Ok true
       ∧ get 2 (heap original.2) l (KStr "message") = Ok m
       ∧ get 2 (heap original.2) l (KStr "data") = Ok d)
  ∧ (isFail loaded.1 2 original.2 original.1 = Ok false ->
     ¬ fail_record loaded.1 original.2 original.1).
Proof.
  apply (isFail_meaning loaded.1 original.2 original.1 2).
  - vm_compute. reflexivity.
  - lia.
Defined.

(** C8, as stated, fails: a record whose only field is keyed by the
    module's symbol is recognised and has no [message]. *)
Lemma isFail_true_without_message :
  ¬ (∀ (M : instance) (st : state) (v : value) (fuel : nat),
       pristine st = true ->
       2 ≤ fuel ->
       isFail M fuel st v = Ok true ->
       ∃ l s, v = VRef l ∧ get fuel (heap st) l (KStr "message") = Ok (VString s)).
Proof.
  intros H.
  destruct (H loaded.1 forged.2 forged.1 2) as (l & s & Hv & Hget).
  - vm_compute. reflexivity.
  - lia.
  - vm_compute. reflexivity.
  - vm_compute in Hv. injection Hv as <-. vm_compute in Hget. discriminate.
Qed.

(** X1. Right after the module is loaded into a realm in which every symbol
    key was created by [Symbol()], [isFail] returns [true] on no primitive,
    on neither [null] nor [undefined], and on no ordinary object or array
    (proxies aside): the symbol is new, so no object has it as a key. *)
Theorem isFail_nothing_at_load (M : instance) (st st' : state) (v : value) (fuel : nat) :
  symbols_registered st ->
  init st = (M, st') ->
  isFail M fuel st' v ≠ Ok true.
Proof.
  intros Hreg Hinit (l & _ & _ & Hhas)%isFail_true_inv.
  eapply has_property_nowhere; [|exact Hhas].
  eauto using init_symbol_unused.
Qed.

Lemma isFail_nothing_at_load_witness :
  isFail loaded.1 3 loaded.2 (VRef 0) ≠ Ok true.
Proof.
  apply (isFail_nothing_at_load loaded.1 std_state loaded.2).
  - apply (bool_decide_unpack (symbols_registered std_state)). vm_compute. exact I.
  - reflexivity.
Defined.
(** ** Further properties of the module *)

(** X2. [mkFail] checks nothing about its arguments: whatever the argument
    list (none, a non-string first argument, more than two), it returns a
    new object that [isFail] recognises, whose [message] is the first
    argument as it is ([undefined] if missing) and whose [data] is the
    second argument, or the default record if that is missing; arguments
    after the second are ignored. *)
Theorem mkFail_any_arguments (M : instance) (args : list value) (st : state) (fuel : nat) :
  root_ok st = true ->
  2 ≤ fuel ->
  mkFail M args st = mkFail M [arg 0 args; arg 1 args] st
  ∧ ∃ (l : loc) (st' : state),
      mkFail M args st = (VRef l, st')
      ∧ heap st !! l = None
      ∧ isFail M fuel st' (VRef l) = Ok true
      ∧ get fuel (heap st') l (KStr "message") = Ok (arg 0 args)
      ∧ get fuel (heap st') l (KStr "data")
        = Ok (match args with _ :: d :: _ => or_default d (empty M) | _ => empty M end).
Proof.
  intros Hroot Hf. split; [reflexivity|].
  destruct (mkFail M args st) as [v st'] eqn:Hmk.
  pose proof (mkFail_extends _ _ _ _ _ Hmk) as Hsub.
  pose proof (mkFail_fail_record _ _ _ _ _ Hmk) as Hrec.
  destruct (mkFail_spec _ _ _ _ _ Hmk) as (l & -> & Hl & _ & _ & Hr).
  exists l, st'. split; [done|]. split; [done|].
  split; [apply isFail_fail_record; eauto using root_ok_extends|].
  destruct (mkFail_fields _ _ _ _ _ fuel ltac:(lia) Hmk) as [Hm Hd].
  split; [done|]. rewrite Hd. by destruct args as [|a [|d rest]].
Qed.

Lemma mkFail_any_arguments_witness :
  mkFail loaded.1 [VRef 0] loaded.2 = mkFail loaded.1 [arg 0 [VRef 0]; arg 1 [VRef 0]] loaded.2
  ∧ ∃ (l : loc) (st' : state),
      mkFail loaded.1 [VRef 0] loaded.2 = (VRef l, st')
      ∧ heap loaded.2 !! l = None
      ∧ isFail loaded.1 2 st' (VRef l) = Ok true
      ∧ get 2 (heap st') l (KStr "message") = Ok (arg 0 [VRef 0])
      ∧ get 2 (heap st') l (KStr "data") = Ok (empty loaded.1).
Proof.
  apply (mkFail_any_arguments loaded.1 [VRef 0] loaded.2 2).
  - vm_compute. reflexivity.
  - lia.
Defined.

(** X3. The discriminant may be inherited: an object made with
    [Object.create(f)] from a failure value [f] is recognised by [isFail],
    though the symbol is no key of its own, and reads the [message] of [f]
    through its prototype. *)
Theorem isFail_inherited (M : instance) (args : list value) (st st1 st2 : state)
    (l : loc) (v : value) (fuel : nat) :
  root_ok st = true ->
  3 ≤ fuel ->
  mkFail M args st = (VRef l, st1) ->
  object_create (Some l) st1 = (v, st2) ->
  ∃ l', v = VRef l' ∧ l' ≠ l
        ∧ isFail M fuel st2 v = Ok true
        ∧ lacks (KSym (__fail__ M)) st2 l' = true
        ∧ get fuel (heap st2) l' (KStr "message") = Ok (arg 0 args).
Proof.
  intros Hroot Hf Hmk Hcr.
  pose proof (mkFail_extends _ _ _ _ _ Hmk) as Hsub1.
  pose proof (alloc_extends _ _ _ _ Hcr) as Hsub2.
  destruct (mkFail_spec _ _ _ _ _ Hmk) as (l0 & [= <-] & _ & Hh1 & _ & Hr1).
  destruct (alloc_spec _ _ _ _ Hcr) as (l' & -> & Hl' & Hh2 & _ & Hr2).
  assert (heap st1 !! l = Some (fail_object M st2 (arg 0 args) (or_default (arg 1 args) (empty M))))
    as Ho1.
  { rewrite Hh1, lookup_insert_eq. f_equal. apply fail_object_intrinsics. congruence. }
  assert (heap st2 !! l = Some (fail_object M st2 (arg 0 args) (or_default (arg 1 args) (empty M))))
    as Ho by (eapply lookup_weaken; eauto).
  assert (l' ≠ l) as Hne by (intros ->; congruence).
  assert (root_ok st2 = true) as Hroot2.
  { eapply root_ok_extends; [exact Hsub2|done|]. eauto using root_ok_extends. }
  assert (heap st2 !! l' = Some {| okind := KOrdinary; proto := Some l;
                                   extensible := true; props := ∅ |}) as Ho'
    by (by rewrite Hh2, lookup_insert_eq).
  exists l'. split; [done|]. split; [done|].
  destruct fuel as [|fuel]; [lia|].
  assert (toString (S fuel) st2 (VRef l') = Ok "[object Object]") as Hts.
  { unfold toString, object_prototype_toString. rewrite Ho'.
    erewrite get_step; [|exact Ho'|apply lookup_empty|done].
    rewrite (get_tag_below st2 fuel l _ Hroot2 ltac:(lia) Ho) by done.
    by destruct (fail_props_tag M st2 (arg 0 args) (or_default (arg 1 args) (empty M)))
      as [-> | ->]. }
  split; [|split].
  - rewrite isFail_tagged_object by done.
    erewrite has_property_step; [|exact Ho'|apply lookup_empty|done].
    destruct fuel as [|fuel]; [lia|].
    eauto using has_property_own, fail_props_marker.
  - unfold lacks. by rewrite Ho'.
  - erewrite get_step; [|exact Ho'|apply lookup_empty|done].
    destruct fuel as [|fuel]; [lia|].
    eauto using get_data, fail_props_message.
Qed.

Lemma isFail_inherited_witness :
  ∃ l', heir.1 = VRef l' ∧ l' ≠ 8
        ∧ isFail loaded.1 3 heir.2 heir.1 = Ok true
        ∧ lacks (KSym (__fail__ loaded.1)) heir.2 l' = true
        ∧ get 3 (heap heir.2) l' (KStr "message") = Ok (arg 0 [VString "original"; VNull]).
Proof.
  apply (isFail_inherited loaded.1 [VString "original"; VNull] loaded.2 original.2 heir.2 8
           heir.1 3).
  - vm_compute. reflexivity.
  - lia.
  - vm_compute. reflexivity.
  - vm_compute. reflexivity.
Defined.

(** X4. The shape test comes first: an object that is not an ordinary
    object (an array, a function, an error, a date, a regular expression,
    a boxed primitive) and whose [Symbol.toStringTag] lookup gives no
    string is rejected by [isFail] even when it has the module's symbol as
    a key. *)
Theorem isFail_rejects_other_kinds (M : instance) (st : state) (l : loc) (o : object)
    (p : prop) (t : value) (fuel : nat) :
  heap st !! l = Some o ->
  okind o ≠ KOrdinary ->
  props o !! KSym (__fail__ M) = Some p ->
  get fuel (heap st) l toStringTag = Ok t ->
  (∀ s, t ≠ VString s) ->
  isFail M fuel st (VRef l) = Ok false.
Proof.
  intros Ho Hk _ Hget Ht.
  unfold isFail, isObject, toString, object_prototype_toString.
  rewrite Ho, Hget. cbn [fmap outcome_fmap mbind outcome_bind mret outcome_ret].
  by rewrite tagged_exotic.
Qed.

Lemma isFail_rejects_other_kinds_witness :
  isFail loaded.1 3 marked_array.2 (VRef 8) = Ok false.
Proof.
  apply (isFail_rejects_other_kinds loaded.1 marked_array.2 8
           {| okind := KArray; proto := Some 1; extensible := true;
              props := {[ KSym (__fail__ loaded.1) := PData (VBool true) true true true;
                          KStr "length" := PData (VNumber 0) true false false ]} |}
           (PData (VBool true) true true true) VUndefined 3).
  - vm_compute. reflexivity.
  - discriminate.
  - vm_compute. reflexivity.
  - vm_compute. reflexivity.
  - intros s. discriminate.
Defined.

Section holder.
Variables (M : instance) (st0 st0' st st1 : state) (args : list value) (l : loc).
Hypothesis Hinit : init st0 = (M, st0').
Hypothesis Hroot : root_ok st = true.
Hypothesis Hmk : mkFail M args st = (VRef l, st1).

(** X5. Recognition depends on the tag that [toString] computes: once
    the holder of a failure value gives it a [Symbol.toStringTag] that is
    a string other than [Object], [isFail] returns [false] on it, although
    the value still has the module's symbol as a key. *)
Theorem toStringTag_hides_failure (s : string) (fuel : nat) :
  s ≠ "Object" ->
  2 ≤ fuel ->
  ∃ st2, js_set fuel st1 l toStringTag (VString s) = Ok (true, st2)
         ∧ isFail M fuel st2 (VRef l) = Ok false
         ∧ has_property fuel (heap st2) l (KSym (__fail__ M)) = Ok true.
Proof.
  intros Hs Hf.
  destruct (mkFail_result _ _ _ _ _ _ _ Hinit Hroot Hmk)
    as (o & Ho & Hoeq & Hplain & Hroot1 & Hne & Hr & _).
  pose proof Hplain as Hplain'. unfold plain in Hplain'.
  rewrite !andb_true_iff, !bool_decide_eq_true in Hplain'.
  destruct Hplain' as [[Hk Hp] Ht].
  destruct (root_ok_spec _ Hroot1) as (r & Hrl & Hrp & Hrt).
  assert (extensible o = true) as Hext by by rewrite Hoeq.
  destruct fuel as [|[|fuel]]; try lia.
  eexists. split.
  { unfold js_set.
    rewrite (ordinary_set_miss_step _ _ _ _ _ _ _ _ Ho Ht Hp).
    rewrite (ordinary_set_miss_end _ _ _ _ _ _ _ Hrl Hrt Hrp).
    rewrite (set_on_receiver_new _ _ _ _ _ Ho Ht Hext). reflexivity. }
  set (st2 := with_heap _ st1).
  assert (heap st2 !! l
          = Some (with_props (insert toStringTag (PData (VString s) true true true)) o)) as Ho2
    by apply lookup_insert_eq.
  split.
  - apply (isFail_other_tag M _ st2 _ (tagged "Object" (VString s))).
    + unfold toString, object_prototype_toString. rewrite Ho2.
      erewrite get_data; [|exact Ho2|apply lookup_insert_eq].
      simpl. by rewrite Hk.
    + intros Heq%tagged_Object_inv. done.
  - assert (props o !! KSym (__fail__ M) = Some (PData (VBool true) true true true)) as Hmark
      by by rewrite Hoeq, fail_props_marker.
    eapply has_property_own; [exact Ho2|]. simpl.
    rewrite lookup_insert_ne by congruence. exact Hmark.
Qed.

(** X6. Recognition does not depend on the fields: after an assignment
    by the holder to a string-keyed property of a failure value ([message]
    and [data] included) that runs no setter, that is, for a key under
    which [Object.prototype] has no accessor, [isFail] still returns
    [true] on the value; and when the assignment took effect, the property
    reads the assigned value. *)
Theorem isFail_survives_assignment (k : string) (x : value) (b : bool) (st2 : state)
    (fuel : nat) :
  accessor_free (KStr k) st (object_prototype (intrinsics st)) = true ->
  js_set fuel st1 l (KStr k) x = Ok (b, st2) ->
  2 ≤ fuel ->
  isFail M fuel st2 (VRef l) = Ok true
  ∧ (b = true -> get fuel (heap st2) l (KStr k) = Ok x).
Proof.
  intros Hfree Hset Hf.
  destruct (mkFail_result _ _ _ _ _ _ _ Hinit Hroot Hmk)
    as (o & Ho & Hoeq & Hplain & Hroot1 & Hne & Hr & Hsub).
  pose proof Hplain as Hplain'. unfold plain in Hplain'.
  rewrite !andb_true_iff, !bool_decide_eq_true in Hplain'.
  destruct Hplain' as [[Hk Hp] Ht].
  destruct (root_ok_spec _ Hroot1) as (r & Hrl & Hrp & _).
  assert (data_only (KStr k) o) as Hdo by (rewrite Hoeq; apply fail_object_data_only).
  assert (data_only (KStr k) r) as Hdr.
  { destruct (root_ok_spec _ Hroot) as (r0 & Hr0 & _).
    assert (r0 = r) as ->.
    { rewrite Hr in Hrl. pose proof (lookup_weaken _ _ _ _ Hr0 Hsub). congruence. }
    eauto using accessor_free_data_only. }
  unfold js_set in Hset.
  destruct (ordinary_set fuel (heap st1) l l (KStr k) x) as [[b' h']| |] eqn:Hos; [|done..].
  simpl in Hset. injection Hset as <- <-.
  assert (props o !! KSym (__fail__ M) = Some (PData (VBool true) true true true)) as Hmark
    by by rewrite Hoeq, fail_props_marker.
  destruct (ordinary_set_below_root _ _ _ _ _ _ _ _ _ _ Ho Hp Hdo Hrl Hrp Hdr Hos)
    as [[-> ->]|[-> (w & e & c & ->)]].
  - split; [|done]. simpl. rewrite with_heap_id.
    rewrite isFail_tagged_object by eauto using toString_plain.
    destruct fuel as [|fuel]; [lia|]. eauto using has_property_own.
  - simpl. set (st2 := with_heap _ st1).
    assert (heap st2 !! l = Some (with_props (insert (KStr k) (PData x w e c)) o)) as Ho2
      by apply lookup_insert_eq.
    assert (root_ok st2 = true) as Hroot2 by (by eapply (root_ok_update st1 st2 l)).
    destruct fuel as [|fuel]; [lia|].
    split.
    + rewrite isFail_tagged_object.
      * eapply has_property_own; [exact Ho2|]. simpl.
        rewrite lookup_insert_ne by done. exact Hmark.
      * eapply toString_plain; [done|lia|exact Ho2|].
        unfold plain. simpl. rewrite lookup_insert_ne by done.
        by rewrite Hk, Hp, Ht, !bool_decide_eq_true_2.
    + intros _. eapply get_data; [exact Ho2|]. simpl. apply lookup_insert_eq.
Qed.

(** X7. The discriminant is an ordinary, configurable property: the
    holder of a failure value can delete it, and [isFail] then returns
    [false] on the value (as long as [Object.prototype] does not have the
    symbol as a key). *)
Theorem delete_marker_unmarks (fuel : nat) :
  lacks (KSym (__fail__ M)) st (object_prototype (intrinsics st)) = true ->
  2 ≤ fuel ->
  ∃ st2, js_delete st1 l (KSym (__fail__ M)) = Ok (true, st2)
         ∧ isFail M fuel st2 (VRef l) = Ok false.
Proof.
  intros Hlack Hf.
  destruct (mkFail_result _ _ _ _ _ _ _ Hinit Hroot Hmk)
    as (o & Ho & Hoeq & Hplain & Hroot1 & Hne & Hr & Hsub).
  pose proof Hplain as Hplain'. unfold plain in Hplain'.
  rewrite !andb_true_iff, !bool_decide_eq_true in Hplain'.
  destruct Hplain' as [[Hk Hp] Ht].
  assert (props o !! KSym (__fail__ M) = Some (PData (VBool true) true true true)) as Hmark
    by by rewrite Hoeq, fail_props_marker.
  assert (lacks (KSym (__fail__ M)) st1 (object_prototype (intrinsics st1)) = true) as Hlack1.
  { rewrite Hr. by apply (lacks_extends _ st). }
  eexists. split.
  { unfold js_delete. rewrite Ho, Hmark. reflexivity. }
  set (st2 := with_heap _ st1).
  assert (heap st2 !! l = Some (with_props (delete (KSym (__fail__ M))) o)) as Ho2
    by apply lookup_insert_eq.
  assert (root_ok st2 = true) as Hroot2 by (by eapply (root_ok_update st1 st2 l)).
  assert (lacks (KSym (__fail__ M)) st2 (object_prototype (intrinsics st2)) = true) as Hlack2
    by (by eapply (lacks_update _ st1 st2 l)).
  destruct (root_ok_spec _ Hroot2) as (r & Hrl & Hrp & _).
  unfold lacks in Hlack2. rewrite Hrl in Hlack2. apply bool_decide_eq_true in Hlack2.
  rewrite isFail_tagged_object.
  - destruct fuel as [|[|fuel]]; try lia.
    erewrite has_property_step; [|exact Ho2|simpl; apply lookup_delete_eq|exact Hp].
    eauto using has_property_end.
  - eapply toString_plain; [done..|exact Ho2|].
    unfold plain. simpl. rewrite lookup_delete_ne by congruence.
    by rewrite Hk, Hp, Ht, !bool_decide_eq_true_2.
Qed.
End holder.

Lemma toStringTag_hides_failure_witness :
  ∃ st2, js_set 2 original.2 8 toStringTag (VString "Failure") = Ok (true, st2)
         ∧ isFail loaded.1 2 st2 (VRef 8) = Ok false
         ∧ has_property 2 (heap st2) 8 (KSym (__fail__ loaded.1)) = Ok true.
Proof.
  apply (toStringTag_hides_failure loaded.1 std_state loaded.2 loaded.2 original.2
           [VString "original"; VNull] 8).
  - reflexivity.
  - vm_compute. reflexivity.
  - vm_compute. reflexivity.
  - discriminate.
  - lia.
Defined.

Lemma isFail_survives_assignment_witness :
  isFail loaded.1 2 overwritten (VRef 8) = Ok true
  ∧ (true = true -> get 2 (heap overwritten) 8 (KStr "message") = Ok (VString "changed")).
Proof.
  apply (isFail_survives_assignment loaded.1 std_state loaded.2 loaded.2 original.2
           [VString "original"; VNull] 8 eq_refl
           ltac:(vm_compute; reflexivity) ltac:(vm_compute; reflexivity)
           "message" (VString "changed") true overwritten 2).
  - vm_compute. reflexivity.
  - vm_compute. reflexivity.
  - lia.
Defined.

Lemma delete_marker_unmarks_witness :
  ∃ st2, js_delete original.2 8 (KSym (__fail__ loaded.1)) = Ok (true, st2)
         ∧ isFail loaded.1 2 st2 (VRef 8) = Ok false.
Proof.
  apply (delete_marker_unmarks loaded.1 std_state loaded.2 loaded.2 original.2
           [VString "original"; VNull] 8).
  - reflexivity.
  - vm_compute. reflexivity.
  - vm_compute. reflexivity.
  - vm_compute. reflexivity.
  - lia.
Defined.

(** X8. The default data record is not itself a failure value: in every
    state the program can reach after the module is loaded, it passes the
    shape test of [isObject] (an object without prototype is tagged
    [Object]) and [isFail] returns [false] on it. *)
Theorem default_record_not_a_failure (M : instance) (st0 st1 st : state) (fuel : nat) :
  init st0 = (M, st1) ->
  rtc (step M) st1 st ->
  1 ≤ fuel ->
  isObject fuel st (empty M) = Ok true ∧ isFail M fuel st (empty M) = Ok false.
Proof.
  intros Hinit Hsteps Hf. apply default_intact_answers; [|done].
  eauto using steps_default_intact, init_default_intact.
Qed.

Lemma default_record_not_a_failure_witness :
  isObject 1 original.2 (empty loaded.1) = Ok true
  ∧ isFail loaded.1 1 original.2 (empty loaded.1) = Ok false.
Proof.
  apply (default_record_not_a_failure loaded.1 std_state loaded.2 original.2 1).
  - reflexivity.
  - eapply rtc_once, (step_mkFail _ [VString "original"; VNull]). reflexivity.
  - lia.
Defined.

(** X9. The default data record is read-only for everyone: in every state
    the program can reach after the module is loaded, an assignment to any
    property of it is refused and a [delete] finds nothing to remove, and
    both leave the state as it was. *)
Theorem default_record_read_only (M : instance) (st0 st1 st : state) :
  init st0 = (M, st1) ->
  rtc (step M) st1 st ->
  ∃ e, empty M = VRef e
       ∧ (∀ (fuel : nat) (k : pkey) (v : value),
            1 ≤ fuel -> js_set fuel st e k v = Ok (false, st))
       ∧ (∀ k : pkey, js_delete st e k = Ok (true, st))
       ∧ (object_freeze (VRef e) st).2 = st.
Proof.
  intros Hinit Hsteps.
  assert (default_intact M st) as (e & HM & He)
    by eauto using steps_default_intact, init_default_intact.
  exists e. split; [done|]. split; [|split].
  - intros [|fuel] k v Hf; [lia|]. unfold js_set.
    erewrite ordinary_set_miss_end; [|exact He|apply lookup_empty|done].
    unfold set_on_receiver. rewrite He. simpl. rewrite lookup_empty. simpl.
    by rewrite with_heap_id.
  - intros k. unfold js_delete. rewrite He. simpl. by rewrite lookup_empty.
  - simpl. destruct st as [h sy r]. unfold with_heap. simpl in *. f_equal.
    apply map_eq. intros i. destruct (decide (i = e)) as [->|Hne].
    + rewrite lookup_alter_eq, He. simpl. unfold freeze_object. simpl.
      by rewrite fmap_empty.
    + by rewrite lookup_alter_ne.
Qed.

Lemma default_record_read_only_witness :
  ∃ e, empty loaded.1 = VRef e
       ∧ (∀ (fuel : nat) (k : pkey) (v : value),
            1 ≤ fuel -> js_set fuel original.2 e k v = Ok (false, original.2))
       ∧ (∀ k : pkey, js_delete original.2 e k = Ok (true, original.2))
       ∧ (object_freeze (VRef e) original.2).2 = original.2.
Proof.
  apply (default_record_read_only loaded.1 std_state loaded.2 original.2).
  - reflexivity.
  - eapply rtc_once, (step_mkFail _ [VString "original"; VNull]). reflexivity.
Defined.



(** X11. The default data record belongs to the module instance, like the
    symbol: a second evaluation of the module body, at any later point of
    the program, allocates a default record of its own, so failure values
    of two instances built without data do not share their [data]. *)
Theorem default_record_per_instance (M1 M2 : instance) (st0 st1 st1' st2 : state) :
  init st0 = (M1, st1) ->
  rtc (step M1) st1 st1' ->
  init st1' = (M2, st2) ->
  empty M1 ≠ empty M2
  ∧ ∀ (m m' : string) (st sa sb : state) (l1 l2 : loc),
      mkFail M1 [VString m] st = (VRef l1, sa) ->
      mkFail M2 [VString m'] sa = (VRef l2, sb) ->
      get 1 (heap sb) l1 (KStr "data") = Ok (empty M1)
      ∧ get 1 (heap sb) l2 (KStr "data") = Ok (empty M2).
Proof.
  intros Hi1 Hsteps Hi2.
  assert (default_intact M1 st1') as (e1 & HM1 & He1)
    by eauto using steps_default_intact, init_default_intact.
  destruct (init_spec _ _ _ Hi2) as (e2 & He2 & HM2 & _).
  split.
  - rewrite HM1, HM2. simpl. intros [= ->]. congruence.
  - intros m m' st sa sb l1 l2 Hmk1 Hmk2.
    destruct (mkFail_fields _ _ _ _ _ 1 ltac:(lia) Hmk1) as [_ Hd1].
    destruct (mkFail_fields _ _ _ _ _ 1 ltac:(lia) Hmk2) as [_ Hd2].
    split; [|done].
    eapply get_extends; [by eapply mkFail_extends|done].
Qed.

Lemma default_record_per_instance_witness :
  empty loaded.1 ≠ empty reloaded.1
  ∧ ∀ (m m' : string) (st sa sb : state) (l1 l2 : loc),
      mkFail loaded.1 [VString m] st = (VRef l1, sa) ->
      mkFail reloaded.1 [VString m'] sa = (VRef l2, sb) ->
      get 1 (heap sb) l1 (KStr "data") = Ok (empty loaded.1)
      ∧ get 1 (heap sb) l2 (KStr "data") = Ok (empty reloaded.1).
Proof.
  apply (default_record_per_instance loaded.1 reloaded.1 std_state loaded.2 loaded.2 reloaded.2).
  - reflexivity.
  - apply rtc_refl.
  - reflexivity.
Defined.

(** X12. [isFail] never returns [true] on a primitive: when [toString]
    returns a tag for it, [isFail] returns [false], unless the tag is
    [[object Object]] (which takes a realm whose prototype for that kind
    of primitive carries such a [Symbol.toStringTag]); the shape test then
    lets the [in] operator run on a value that is no object, and [isFail]
    raises the [TypeError] of [in]. *)
Theorem isFail_on_primitive (M : instance) (fuel : nat) (st : state) (v : value) (s : string) :
  is_primitive v = true ->
  toString fuel st v = Ok s ->
  isFail M fuel st v
  = if String.eqb s "[object Object]" then Throw TypeError else Ok false.
Proof.
  intros Hv Hs. unfold isFail, isObject. rewrite Hs. simpl.
  destruct (String.eqb s "[object Object]"); [|done]. by destruct v.
Qed.

Lemma isFail_on_primitive_witness :
  isFail loaded.1 2 retagged (VNumber 42)
  = if String.eqb "[object Object]" "[object Object]" then Throw TypeError else Ok false.
Proof.
  apply (isFail_on_primitive loaded.1 2 retagged (VNumber 42) "[object Object]").
  - reflexivity.
  - vm_compute. reflexivity.
Defined.

(** The case of X12 arises after
    [Number.prototype[Symbol.toStringTag] = 'Object']. *)
Example isFail_type_error_on_number :
  isFail loaded.1 2 retagged (VNumber 42) = Throw TypeError.
Proof. vm_compute. reflexivity. Qed.

(** X13. Loading the module touches nothing that exists: it creates one
    symbol, described [fail], and allocates one object, the default data
    record, which is frozen, empty and without prototype; every object
    allocated before is left as it was, and a pristine realm stays
    pristine. *)
Theorem init_footprint (st st' : state) (M : instance) :
  init st = (M, st') ->
  ∃ e, empty M = VRef e
       ∧ (e ∉ dom (heap st))
       ∧ dom (heap st') = {[e]} ∪ dom (heap st)
       ∧ heap st' !! e = Some frozen_empty
       ∧ is_frozen frozen_empty = true
       ∧ __fail__ M = Created (length (symbols st))
       ∧ symbols st' = (symbols st ++ ["fail"])%list
       ∧ heap st ⊆ heap st'
       ∧ intrinsics st' = intrinsics st
       ∧ (pristine st = true -> pristine st' = true).
Proof.
  intros Hinit.
  pose proof (init_extends _ _ _ Hinit) as Hsub.
  destruct (init_spec _ _ _ Hinit) as (e & He & -> & Hh & Hs & Hr).
  exists e. split; [done|].
  split; [by apply not_elem_of_dom|].
  split; [rewrite Hh; apply dom_insert_L|].
  split; [by rewrite Hh, lookup_insert_eq|].
  split; [done|]. split; [done|]. split; [done|]. split; [done|]. split; [done|].
  eauto using pristine_extends.
Qed.

Lemma init_footprint_witness :
  ∃ e, empty loaded.1 = VRef e
       ∧ (e ∉ dom (heap std_state))
       ∧ dom (heap loaded.2) = {[e]} ∪ dom (heap std_state)
       ∧ heap loaded.2 !! e = Some frozen_empty
       ∧ is_frozen frozen_empty = true
       ∧ __fail__ loaded.1 = Created (length (symbols std_state))
       ∧ symbols loaded.2 = (symbols std_state ++ ["fail"])%list
       ∧ heap std_state ⊆ heap loaded.2
       ∧ intrinsics loaded.2 = intrinsics std_state
       ∧ (pristine std_state = true -> pristine loaded.2 = true).
Proof. apply (init_footprint std_state loaded.2 loaded.1). reflexivity. Defined.

(** X14. Failure values are not shared: every call of [mkFail] returns a
    reference to a new object, different from every object allocated
    before it; two calls return different references even when their
    arguments are the same, whatever the program does in between. *)
Theorem mkFail_returns_new_object (M : instance) (args1 args2 : list value)
    (st sa sb sc : state) (v1 v2 : value) :
  mkFail M args1 st = (v1, sa) ->
  rtc (step M) sa sb ->
  mkFail M args2 sb = (v2, sc) ->
  v1 ≠ v2
  ∧ ∃ l1 l2, v1 = VRef l1 ∧ v2 = VRef l2
             ∧ heap st !! l1 = None ∧ heap sb !! l2 = None
             ∧ is_Some (heap sc !! l1) ∧ is_Some (heap sc !! l2).
Proof.
  intros Hmk1 Hsteps Hmk2.
  destruct (mkFail_spec _ _ _ _ _ Hmk1) as (l1 & -> & Hl1 & Hh1 & _).
  destruct (mkFail_spec _ _ _ _ _ Hmk2) as (l2 & -> & Hl2 & Hh2 & _).
  assert (is_Some (heap sb !! l1)) as Hb.
  { eapply steps_allocated; [exact Hsteps|]. rewrite Hh1, lookup_insert_eq. eauto. }
  split.
  - intros [= ->]. rewrite Hl2 in Hb. by destruct Hb.
  - exists l1, l2. repeat split; try done.
    + destruct Hb as [o Ho]. exists o.
      eapply lookup_weaken; [exact Ho|]. by eapply mkFail_extends.
    + rewrite Hh2, lookup_insert_eq. eauto.
Qed.

Lemma mkFail_returns_new_object_witness :
  original.1 ≠ (mkFail loaded.1 [VString "original"; VNull] original.2).1
  ∧ ∃ l1 l2, original.1 = VRef l1
             ∧ (mkFail loaded.1 [VString "original"; VNull] original.2).1 = VRef l2
             ∧ heap loaded.2 !! l1 = None ∧ heap original.2 !! l2 = None
             ∧ is_Some (heap (mkFail loaded.1 [VString "original"; VNull] original.2).2 !! l1)
             ∧ is_Some (heap (mkFail loaded.1 [VString "original"; VNull] original.2).2 !! l2).
Proof.
  apply (mkFail_returns_new_object loaded.1 [VString "original"; VNull]
           [VString "original"; VNull] loaded.2 original.2 original.2).
  - reflexivity.
  - apply rtc_refl.
  - reflexivity.
Defined.
